(** * cluster-turndown: the EKS turndown provider

  A shallow embedding of [pkg/turndown/provider/eksprovider.go] and the
  properties of its capacity codec ([flatRange] / [expandRange]) and of
  the two batch operations [SetNodePoolSizes] and [ResetNodePoolSizes].

  Conventions.
  - Go strings are byte strings: [string] with [ascii] bytes.
  - Go fixed-width integers are [Z] with the wrap-around written out.
  - Go's [int] is 32 or 64 bits wide depending on the platform; the
    width is the parameter [ws : wordSize] of everything that parses.
  - A Go panic is the [Panicked] branch of [outcome].
  - Logger output ([p.log]) and the [context.Context] handed to the
    provider are not part of the model. *)

From Stdlib Require Import ZArith String Ascii List Bool Lia.
From stdpp Require Import gmap strings.
Import ListNotations.

Local Open Scope string_scope.
Local Open Scope list_scope.
Local Open Scope Z_scope.

(** ** Machine integers *)

Module GoInt.

(** [strconv.IntSize]: the width of [int] on the platform. *)
Inductive wordSize := W32 | W64.

Definition intSize (ws : wordSize) : Z :=
  match ws with W32 => 32 | W64 => 64 end.

(** Conversion to a signed integer of [bits] bits keeps the low bits. *)
Definition wrapS (bits x : Z) : Z :=
  (x + 2 ^ (bits - 1)) mod 2 ^ bits - 2 ^ (bits - 1).

Definition int32 (x : Z) : Z := wrapS 32 x.
Definition int64 (x : Z) : Z := wrapS 64 x.
Definition int (ws : wordSize) (x : Z) : Z := wrapS (intSize ws) x.
Definition uint64 (x : Z) : Z := x mod 2 ^ 64.

Definition in_int32 (x : Z) : Prop := - 2 ^ 31 <= x < 2 ^ 31.

(** The value of a byte, and the byte of a value (low eight bits). *)
Definition byteZ (c : ascii) : Z := Z.of_N (N_of_ascii c).
Definition byte (z : Z) : ascii := ascii_of_N (Z.to_N (z mod 256)).

End GoInt.
Import GoInt.

(** ** Panics *)

Inductive panic :=
| IndexOutOfRange (index length : nat).

Inductive outcome (A : Type) :=
| Returned (a : A)
| Panicked (p : panic).
Arguments Returned {A} a.
Arguments Panicked {A} p.

(** A panic ends the function: [x ← m; k] runs [k] only when [m] returned. *)
#[global] Instance outcome_bind : MBind outcome := fun A B k m =>
  match m with
  | Returned a => k a
  | Panicked p => Panicked p
  end.

(** [values[i]] on a slice: a run-time panic when [i] is out of range. *)
Definition index {A} (values : list A) (i : nat) : outcome A :=
  match values !! i with
  | Some v => Returned v
  | None => Panicked (IndexOutOfRange i (List.length values))
  end.

(** ** The parts of the Go library the codec calls *)

Module strings.

(** [strings.Split(s, sep)] for the one-byte separator the provider
    uses: the fields between the occurrences of [sep], in order; a
    string with [n] separators has [n + 1] fields. *)
Fixpoint Split (s : string) (sep : ascii) : list string :=
  match s with
  | EmptyString => [EmptyString]
  | String c s' =>
      if Ascii.eqb c sep then EmptyString :: Split s' sep
      else match Split s' sep with
           | f :: fs => String c f :: fs
           | [] => [String c EmptyString]
           end
  end.

End strings.

Module strconv.

Inductive NumError := ErrSyntax | ErrRange.

(** [lower(c)]: [c | ('x' - 'X')]. *)
Definition lower (c : Z) : Z := Z.lor c 32.

(** The cutoff of [ParseUint] at base 10: [maxUint64/10 + 1]. *)
Definition cutoff10 : Z := (2 ^ 64 - 1) / 10 + 1.

(** The digit loop of [ParseUint] at base 10 (no underscores). *)
Fixpoint ParseUint_loop (maxVal : Z) (s : string) (n : Z)
  : Z * option NumError :=
  match s with
  | EmptyString => (n, None)
  | String ch s' =>
      let c := byteZ ch in
      let digit :=
        if (48 <=? c) && (c <=? 57) then Some (c - 48)
        else if (97 <=? lower c) && (lower c <=? 122)
             then Some (lower c - 97 + 10)
             else None in
      match digit with
      | None => (0, Some ErrSyntax)
      | Some d =>
          if 10 <=? d then (0, Some ErrSyntax)
          else if cutoff10 <=? n then (maxVal, Some ErrRange)
          else
            let n := uint64 (n * 10) in
            let n1 := uint64 (n + d) in
            if (n1 <? n) || (maxVal <? n1) then (maxVal, Some ErrRange)
            else ParseUint_loop maxVal s' n1
      end
  end.

(** [ParseUint(s, 10, 0)]. *)
Definition ParseUint (ws : wordSize) (s : string) : Z * option NumError :=
  match s with
  | EmptyString => (0, Some ErrSyntax)
  | _ =>
      let bitSize := intSize ws in
      let maxVal := uint64 (uint64 (2 ^ bitSize) - 1) in
      ParseUint_loop maxVal s 0
  end.

(** [ParseInt(s, 10, 0)]. *)
Definition ParseInt (ws : wordSize) (s : string) : Z * option NumError :=
  match s with
  | EmptyString => (0, Some ErrSyntax)
  | String c0 rest =>
      let neg := Ascii.eqb c0 "-" in
      let s1 := if Ascii.eqb c0 "+" then rest
                else if Ascii.eqb c0 "-" then rest else s in
      let '(un, err) := ParseUint ws s1 in
      match err with
      | Some ErrSyntax => (0, Some ErrSyntax)
      | _ =>
          let bitSize := intSize ws in
          let cutoff := 2 ^ (bitSize - 1) in
          if negb neg && (cutoff <=? un) then (cutoff - 1, Some ErrRange)
          else if neg && (cutoff <? un) then (- cutoff, Some ErrRange)
          else
            let n := int64 un in
            let n := if neg then int64 (- n) else n in
            (n, None)
      end
  end.

(** The fast path of [Atoi]: [ch -= '0'] on a byte, [n = n*10 + int(ch)]
    on an [int]. *)
Fixpoint Atoi_loop (ws : wordSize) (s : string) (n : Z) : option Z :=
  match s with
  | EmptyString => Some n
  | String ch s' =>
      let ch := (byteZ ch - 48) mod 256 in
      if 9 <? ch then None
      else Atoi_loop ws s' (int ws (n * 10 + ch))
  end.

(** [strconv.Atoi]: the value and the error, as Go returns them. *)
Definition Atoi (ws : wordSize) (s : string) : Z * option NumError :=
  let sLen := Z.of_nat (String.length s) in
  if ((intSize ws =? 32) && ((0 <? sLen) && (sLen <? 10)))
     || ((intSize ws =? 64) && ((0 <? sLen) && (sLen <? 19)))
  then
    match s with
    | EmptyString => (0, Some ErrSyntax)
    | String c0 rest =>
        let signed := Ascii.eqb c0 "-" || Ascii.eqb c0 "+" in
        let s1 := if signed then rest else s in
        if signed && (Z.of_nat (String.length s1) <? 1)
        then (0, Some ErrSyntax)
        else
          match Atoi_loop ws s1 0 with
          | None => (0, Some ErrSyntax)
          | Some n =>
              (if Ascii.eqb c0 "-" then int ws (- n) else n, None)
          end
    end
  else
    let '(i64, err) := ParseInt ws s in
    (int ws i64, err).

End strconv.

Module fmt.

(** The digit loop of [fmtInteger] at base 10: the digits of [u] are
    written in front of [acc], the least significant one first, and the
    last one written is [digits[u]], which is ['0' + u] below ten.  The
    loop of the source runs while [u >= 10]; [fuel] bounds it here, and
    twenty rounds are enough for every [uint64]. *)
Fixpoint fmtInteger_loop (fuel : nat) (u : Z) (acc : string) : string :=
  match fuel with
  | O => String (byte (48 + u)) acc
  | S fuel' =>
      if 10 <=? u then
        let next := u / 10 in
        fmtInteger_loop fuel' next (String (byte (48 + u - next * 10)) acc)
      else String (byte (48 + u)) acc
  end.

(** The verb [%d] applied to an [int32]. *)
Definition fmt_d (v : Z) : string :=
  let u := uint64 v in
  let negative := int64 u <? 0 in
  let u := if negative then uint64 (- u) else u in
  let digits := fmtInteger_loop 20 u EmptyString in
  if negative then String "-" digits else digits.

End fmt.

(** ** The capacity codec *)

Definition flatRange (min max count : Z) : string :=
  fmt.fmt_d min +:+ "/" +:+ fmt.fmt_d max +:+ "/" +:+ fmt.fmt_d count.

Definition expandRange (ws : wordSize) (s : string) : outcome (Z * Z * Z) :=
  let values := strings.Split s "/" in
  v2 ← index values 2;
  let '(count, err) := strconv.Atoi ws v2 in
  match err with
  | Some _ => Returned (-1, -1, -1)
  | None =>
      v0 ← index values 0;
      let '(min, err) := strconv.Atoi ws v0 in
      let min := match err with Some _ => count | None => min end in
      v1 ← index values 1;
      let '(max, err) := strconv.Atoi ws v1 in
      let max := match err with Some _ => count | None => max end in
      Returned (int32 min, int32 max, int32 count)
  end.

(** ** The collaborators: [cp.NodePool] and [cp.ClusterProvider]

    Both are interfaces of [pkg/cluster/provider]; the turndown provider
    only calls them.  They are parameters here: [World] is whatever the
    provider's backing store is, a [NodePool] is a handle whose methods
    read that store (a pool that is a plain snapshot is the case where
    they ignore it), and the three mutating operations return Go's
    [error] ([None] is [nil]) with the store they leave behind. *)

Class ClusterProvider (NodePool World error : Type) := {
  Name : NodePool -> World -> string;
  MinNodes : NodePool -> World -> Z;
  MaxNodes : NodePool -> World -> Z;
  NodeCount : NodePool -> World -> Z;
  Tags : NodePool -> World -> gmap string string;
  UpdateNodePoolSize : NodePool -> Z -> World -> option error * World;
  CreateOrUpdateTags :
    NodePool -> bool -> gmap string string -> World -> option error * World;
  DeleteTags : NodePool -> list string -> World -> option error * World
}.

(** A call received by the Cluster Provider, with its arguments. *)
Inductive call (NodePool : Type) :=
| CallUpdateNodePoolSize (np : NodePool) (size : Z)
| CallCreateOrUpdateTags (np : NodePool) (overwrite : bool)
    (tags : gmap string string)
| CallDeleteTags (np : NodePool) (keys : list string).
Arguments CallUpdateNodePoolSize {NodePool} np size.
Arguments CallCreateOrUpdateTags {NodePool} np overwrite tags.
Arguments CallDeleteTags {NodePool} np keys.

(** The state a batch runs in: the provider's store and the calls the
    provider has received so far, oldest first. *)
Record run (NodePool World : Type) := Run {
  world : World;
  calls : list (call NodePool)
}.
Arguments Run {NodePool World} world calls.
Arguments world {NodePool World} r.
Arguments calls {NodePool World} r.

Definition EKSNodeGroupPreviousKey : string := "cluster.turndown.previous".
Definition EKSTurndownPoolName : string := "cluster-turndown".

(** ** The turndown provider *)

Section EKSProvider.

Context {NodePool World error : Type}.
Context {clusterProvider : ClusterProvider NodePool World error}.
Variable ws : wordSize.

(** [p.clusterProvider.UpdateNodePoolSize(c, np, size)] and its two
    siblings: the call is recorded and the store replaced. *)
Definition cpUpdateNodePoolSize (np : NodePool) (size : Z)
    (st : run NodePool World) : option error * run NodePool World :=
  let '(err, w) := UpdateNodePoolSize np size (world st) in
  (err, Run w (calls st ++ [CallUpdateNodePoolSize np size])).

Definition cpCreateOrUpdateTags (np : NodePool) (overwrite : bool)
    (tags : gmap string string) (st : run NodePool World)
  : option error * run NodePool World :=
  let '(err, w) := CreateOrUpdateTags np overwrite tags (world st) in
  (err, Run w (calls st ++ [CallCreateOrUpdateTags np overwrite tags])).

Definition cpDeleteTags (np : NodePool) (keys : list string)
    (st : run NodePool World) : option error * run NodePool World :=
  let '(err, w) := DeleteTags np keys (world st) in
  (err, Run w (calls st ++ [CallDeleteTags np keys])).

(** The [for _, np := range nodePools] loop of [SetNodePoolSizes]. *)
Fixpoint SetNodePoolSizes_range (nodePools : list NodePool) (size : Z)
    (st : run NodePool World) : option error * run NodePool World :=
  match nodePools with
  | [] => (None, st)
  | np :: nodePools' =>
      let min := MinNodes np (world st) in
      let max := MaxNodes np (world st) in
      let count := NodeCount np (world st) in
      let rng := flatRange min max count in
      let '(err, st) := cpUpdateNodePoolSize np size st in
      match err with
      | Some e => (Some e, st)
      | None =>
          let '(err, st) :=
            cpCreateOrUpdateTags np false
              {[ EKSNodeGroupPreviousKey := rng ]} st in
          match err with
          | Some e => (Some e, st)
          | None => SetNodePoolSizes_range nodePools' size st
          end
      end
  end.

Definition SetNodePoolSizes (nodePools : list NodePool) (size : Z)
    (st : run NodePool World) : option error * run NodePool World :=
  if (List.length nodePools =? 0)%nat then (None, st)
  else SetNodePoolSizes_range nodePools size st.

(** The loop of [ResetNodePoolSizes]; [expandRange] may panic. *)
Fixpoint ResetNodePoolSizes_range (nodePools : list NodePool)
    (st : run NodePool World) : outcome (option error) * run NodePool World :=
  match nodePools with
  | [] => (Returned None, st)
  | np :: nodePools' =>
      let tags := Tags np (world st) in
      match tags !! EKSNodeGroupPreviousKey with
      | None => ResetNodePoolSizes_range nodePools' st
      | Some rangeTag =>
          match expandRange ws rangeTag with
          | Panicked p => (Panicked p, st)
          | Returned (_, _, count) =>
              if count <? 0 then ResetNodePoolSizes_range nodePools' st
              else
                let '(err, st) := cpUpdateNodePoolSize np count st in
                match err with
                | Some e => (Returned (Some e), st)
                | None =>
                    let '(err, st) :=
                      cpDeleteTags np [EKSNodeGroupPreviousKey] st in
                    match err with
                    | Some e => (Returned (Some e), st)
                    | None => ResetNodePoolSizes_range nodePools' st
                    end
                end
          end
      end
  end.

Definition ResetNodePoolSizes (nodePools : list NodePool)
    (st : run NodePool World) : outcome (option error) * run NodePool World :=
  if (List.length nodePools =? 0)%nat then (Returned None, st)
  else ResetNodePoolSizes_range nodePools st.

End EKSProvider.

(** ** An in-memory Cluster Provider *)

Module MemCloud.

Record pool := Pool {
  pool_min : Z;
  pool_max : Z;
  pool_count : Z;
  pool_tags : gmap string string
}.

(** The store: the pools by name, and the names of the pools whose
    resize, tag write or tag deletion is refused. *)
Record cloud := Cloud {
  pools : gmap string pool;
  resize_refused : list string;
  tagging_refused : list string;
  untagging_refused : list string
}.

Definition with_pools (f : gmap string pool -> gmap string pool)
    (w : cloud) : cloud :=
  Cloud (f (pools w)) (resize_refused w) (tagging_refused w)
        (untagging_refused w).

Definition refused (np : string) (l : list string) : bool :=
  existsb (String.eqb np) l.

Definition read {A} (f : pool -> A) (d : A) (np : string) (w : cloud) : A :=
  match pools w !! np with Some p => f p | None => d end.

(** Modelled from the spec: the Cluster Provider of section 6, whose
    implementation ([pkg/cluster/provider]) is not among the sources.
    Resizing sets the node count; a tag write with [overwrite = false]
    keeps the other tags and replaces the written keys; tag deletion
    removes the keys. *)
#[global] Instance provider : ClusterProvider string cloud string := {|
  Name := fun np _ => np;
  MinNodes := read pool_min 0;
  MaxNodes := read pool_max 0;
  NodeCount := read pool_count 0;
  Tags := read pool_tags ∅;
  UpdateNodePoolSize := fun np size w =>
    if refused np (resize_refused w) then (Some "resize refused", w)
    else (None, with_pools (alter (fun p =>
            Pool (pool_min p) (pool_max p) size (pool_tags p)) np) w);
  CreateOrUpdateTags := fun np overwrite tags w =>
    if refused np (tagging_refused w) then (Some "tag write refused", w)
    else (None, with_pools (alter (fun p =>
            Pool (pool_min p) (pool_max p) (pool_count p)
                 (if overwrite then tags else tags ∪ pool_tags p)) np) w);
  DeleteTags := fun np keys w =>
    if refused np (untagging_refused w) then (Some "tag deletion refused", w)
    else (None, with_pools (alter (fun p =>
            Pool (pool_min p) (pool_max p) (pool_count p)
                 (foldr delete (pool_tags p) keys)) np) w)
|}.

Definition start (w : cloud) : run string cloud := Run w [].

End MemCloud.


(** ** Vocabulary of the statements *)

(** [free_of sep s]: the byte [sep] does not occur in [s]. *)
Fixpoint free_of (sep : ascii) (s : string) : bool :=
  match s with
  | EmptyString => true
  | String c s' => negb (Ascii.eqb c sep) && free_of sep s'
  end.

(** The marker made of three fields. *)
Definition marker (a b c : string) : string :=
  a +:+ "/" +:+ b +:+ "/" +:+ c.

(** What [Atoi] yields when it reports no error. *)
Definition parsed (ws : wordSize) (s : string) : option Z :=
  match strconv.Atoi ws s with
  | (n, None) => Some n
  | (_, Some _) => None
  end.

(** The calls a pool receives when it is shrunk and marked with [m]. *)
Definition shrunk_and_marked {NodePool : Type} (size : Z)
    (pm : NodePool * string) : list (call NodePool) :=
  [CallUpdateNodePoolSize pm.1 size;
   CallCreateOrUpdateTags pm.1 false {[ EKSNodeGroupPreviousKey := pm.2 ]}].

(** ** Scenarios on the in-memory provider *)

Module Scenario.

Import MemCloud.

(** Three pools; the provider refuses to resize [B]. *)
Definition cloudABC : cloud :=
  Cloud (list_to_map [("A", Pool 1 3 2 ∅);
                      ("B", Pool 0 4 4 {[ "team" := "data" ]});
                      ("C", Pool 1 1 1 ∅)])
        ["B"] [] [].

(** [cloudABC] once [A] has been shrunk to zero and marked. *)
Definition cloudABC_A_down : cloud :=
  Cloud (list_to_map
           [("A", Pool 1 3 0 {[ EKSNodeGroupPreviousKey := "1/3/2" ]});
            ("B", Pool 0 4 4 {[ "team" := "data" ]});
            ("C", Pool 1 1 1 ∅)])
        ["B"] [] [].

(** [A] was never turned down; [B] carries the marker ["1/5/2"]. *)
Definition cloudAB : cloud :=
  Cloud (list_to_map
           [("A", Pool 1 3 2 ∅);
            ("B", Pool 1 5 0 {[ "team" := "data";
                                EKSNodeGroupPreviousKey := "1/5/2" ]})])
        [] [] [].

Definition cloudAB_restored : cloud :=
  Cloud (list_to_map [("A", Pool 1 3 2 ∅);
                      ("B", Pool 1 5 2 {[ "team" := "data" ]})])
        [] [] [].

(** [B] and [C] are both turned down; the provider refuses to resize [B]. *)
Definition cloudStuck : cloud :=
  Cloud (list_to_map
           [("B", Pool 1 5 0 {[ EKSNodeGroupPreviousKey := "1/5/2" ]});
            ("C", Pool 0 1 0 {[ EKSNodeGroupPreviousKey := "0/1/1" ]})])
        ["B"] [] [].

(** [N] carries a well-formed marker whose count is negative. *)
Definition cloudNegative : cloud :=
  Cloud (list_to_map
           [("N", Pool 0 3 0 {[ EKSNodeGroupPreviousKey := "-5/-5/-5" ]});
            ("B", Pool 1 5 0 {[ EKSNodeGroupPreviousKey := "1/5/2" ]})])
        [] [] [].

Definition cloudNegative_B_restored : cloud :=
  Cloud (list_to_map
           [("N", Pool 0 3 0 {[ EKSNodeGroupPreviousKey := "-5/-5/-5" ]});
            ("B", Pool 1 5 2 ∅)])
        [] [] [].

End Scenario.

(** ** Vocabulary of the further properties *)

(** [strings.Count(s, sep)] for a one-byte separator. *)
Fixpoint count_sep (sep : ascii) (s : string) : nat :=
  match s with
  | EmptyString => O
  | String c s' =>
      if Ascii.eqb c sep then S (count_sep sep s') else count_sep sep s'
  end.

Definition is_digit (c : ascii) : bool :=
  (48 <=? byteZ c) && (byteZ c <=? 57).

Fixpoint all_digits (s : string) : bool :=
  match s with
  | EmptyString => true
  | String c s' => is_digit c && all_digits s'
  end.

(** A field without its leading sign, if it has one. *)
Definition unsigned_part (s : string) : string :=
  match s with
  | EmptyString => EmptyString
  | String c rest =>
      if Ascii.eqb c "-" || Ascii.eqb c "+" then rest else s
  end.

(** A decimal numeral: an optional sign and at least one digit. *)
Definition numeral (s : string) : bool :=
  match unsigned_part s with
  | EmptyString => false
  | String c rest => all_digits (String c rest)
  end.

(** The number a string of digits denotes, read after the digits [n]. *)
Fixpoint digits_value (s : string) (n : Z) : Z :=
  match s with
  | EmptyString => n
  | String c s' => digits_value s' (n * 10 + (byteZ c - 48))
  end.

Definition numeral_value (s : string) : Z :=
  match s with
  | String c _ =>
      if Ascii.eqb c "-" then - digits_value (unsigned_part s) 0
      else digits_value (unsigned_part s) 0
  | EmptyString => 0
  end.

(** The range of Go's [int]. *)
Definition in_int (ws : wordSize) (x : Z) : Prop :=
  - 2 ^ (intSize ws - 1) <= x < 2 ^ (intSize ws - 1).



(** A pool that has nothing to restore in the store [w]: no marker, or a
    marker that decodes to a negative count. *)
Definition nothing_to_restore {NodePool World error : Type}
    {clusterProvider : ClusterProvider NodePool World error}
    (ws : wordSize) (w : World) (np : NodePool) : Prop :=
  match Tags np w !! EKSNodeGroupPreviousKey with
  | None => True
  | Some tag =>
      exists mn mx count : Z,
        expandRange ws tag = Returned (mn, mx, count) /\ count < 0
  end.

Module Scenario2.

Import MemCloud.

(** [G] carries a marker that is not a range; [B] is turned down. *)
Definition cloudGarbled : cloud :=
  Cloud (list_to_map
           [("G", Pool 0 3 0 {[ EKSNodeGroupPreviousKey := "garbage" ]});
            ("B", Pool 1 5 0 {[ EKSNodeGroupPreviousKey := "1/5/2" ]})])
        [] [] [].

(** Two pools in their normal state, a provider that refuses nothing. *)
Definition cloudCalm : cloud :=
  Cloud (list_to_map [("A", Pool 1 3 2 ∅);
                      ("B", Pool 0 4 4 {[ "team" := "data" ]})])
        [] [] [].

End Scenario2.

(** ** Vocabulary for the in-memory provider *)

Module Ledger.

Import MemCloud.

(** A store in which the provider refuses nothing. *)
Definition quiet (w : cloud) : Prop :=
  resize_refused w = [] /\ tagging_refused w = []
  /\ untagging_refused w = [].

(** A pool whose range is made of 32-bit integers and whose count is
    not negative. *)
Definition restorable (p : pool) : Prop :=
  in_int32 (pool_min p) /\ in_int32 (pool_max p)
  /\ 0 <= pool_count p < 2 ^ 31.

(** The pool [p] once shrunk to [size] and marked with its range. *)
Definition shrunk (size : Z) (p : pool) : pool :=
  Pool (pool_min p) (pool_max p) size
       ({[ EKSNodeGroupPreviousKey :=
             flatRange (pool_min p) (pool_max p) (pool_count p) ]}
        ∪ pool_tags p).

(** The pool [p] with the count [count] and without the marker key. *)
Definition unmarked (count : Z) (p : pool) : pool :=
  Pool (pool_min p) (pool_max p) count
       (delete EKSNodeGroupPreviousKey (pool_tags p)).

(** What a restore makes of the pool [p]: resized to the count of its
    marker and rid of the marker, or left alone when there is no marker
    or its count is negative. *)
Definition restored (ws : wordSize) (p : pool) : pool :=
  match pool_tags p !! EKSNodeGroupPreviousKey with
  | None => p
  | Some tag =>
      match expandRange ws tag with
      | Returned (_, _, count) => if count <? 0 then p else unmarked count p
      | Panicked _ => p
      end
  end.

(** Every marker of the store has at least three fields. *)
Definition well_marked (w : cloud) : Prop :=
  forall (name : string) (p : pool) (tag : string),
    pools w !! name = Some p ->
    pool_tags p !! EKSNodeGroupPreviousKey = Some tag ->
    (2 <= count_sep "/" tag)%nat.

End Ledger.

(** * Properties of the codec *)

Section Bytes.

Lemma byteZ_byte (z : Z) : 0 <= z < 256 -> byteZ (byte z) = z.
Proof.
  intros Hz. unfold byteZ, byte.
  rewrite N_ascii_embedding.
  - rewrite Z.mod_small by lia. rewrite Z2N.id; lia.
  - rewrite Z.mod_small by lia.
    change 256%N with (Z.to_N 256). apply Z2N.inj_lt; lia.
Qed.

Lemma byte_digit_not (d : Z) (c : ascii) :
  0 <= d <= 9 -> (byteZ c < 48 \/ 57 < byteZ c) ->
  Ascii.eqb (byte (48 + d)) c = false.
Proof.
  intros Hd Hc. apply Ascii.eqb_neq. intros E.
  assert (H := byteZ_byte (48 + d)). rewrite E in H. lia.
Qed.

End Bytes.

Section Split.

Lemma Split_free (sep : ascii) (s : string) :
  free_of sep s = true -> strings.Split s sep = [s].
Proof.
  induction s as [|c s IH]; simpl; [reflexivity|].
  intros [Hc Hs]%andb_prop. apply negb_true_iff in Hc.
  rewrite Hc, (IH Hs). reflexivity.
Qed.

Lemma Split_field (sep : ascii) (a s : string) :
  free_of sep a = true ->
  strings.Split (a +:+ String sep s) sep = a :: strings.Split s sep.
Proof.
  induction a as [|c a IH]; simpl.
  - intros _. rewrite Ascii.eqb_refl. reflexivity.
  - intros [Hc Ha]%andb_prop. apply negb_true_iff in Hc.
    rewrite Hc, (IH Ha). reflexivity.
Qed.

Lemma Split_marker (a b c : string) :
  free_of "/" a = true -> free_of "/" b = true -> free_of "/" c = true ->
  strings.Split (marker a b c) "/" = [a; b; c].
Proof.
  intros Ha Hb Hc. unfold marker.
  change (a +:+ "/" +:+ b +:+ "/" +:+ c)
    with (a +:+ String "/" (b +:+ String "/" c)).
  rewrite (Split_field _ _ _ Ha), (Split_field _ _ _ Hb), (Split_free _ _ Hc).
  reflexivity.
Qed.

End Split.

Section Wrap.

Lemma mod_shift (x m k : Z) : 0 <= x + k * m < m -> x mod m = x + k * m.
Proof.
  intros H. symmetry. apply Z.mod_unique with (q := - k); [left; lia | ring].
Qed.

Lemma int32_small (x : Z) : in_int32 x -> int32 x = x.
Proof.
  unfold in_int32, int32, wrapS. change (2 ^ 31) with 2147483648.
  change (2 ^ (32 - 1)) with 2147483648. change (2 ^ 32) with 4294967296.
  intros H. rewrite Z.mod_small; lia.
Qed.

Lemma int64_small (x : Z) : - 2 ^ 63 <= x < 2 ^ 63 -> int64 x = x.
Proof.
  unfold int64, wrapS. change (2 ^ 63) with 9223372036854775808.
  change (2 ^ (64 - 1)) with 9223372036854775808.
  change (2 ^ 64) with 18446744073709551616.
  intros H. rewrite Z.mod_small; lia.
Qed.

Lemma int_small (ws : wordSize) (x : Z) : in_int32 x -> int ws x = x.
Proof.
  unfold in_int32, int, wrapS. change (2 ^ 31) with 2147483648.
  intros H. destruct ws; simpl intSize.
  - change (2 ^ (32 - 1)) with 2147483648. change (2 ^ 32) with 4294967296.
    rewrite Z.mod_small; lia.
  - change (2 ^ (64 - 1)) with 9223372036854775808.
    change (2 ^ 64) with 18446744073709551616.
    rewrite Z.mod_small; lia.
Qed.

Lemma uint64_small (x : Z) : 0 <= x < 2 ^ 64 -> uint64 x = x.
Proof. intros H. unfold uint64. apply Z.mod_small. exact H. Qed.

Lemma uint64_neg (x : Z) : - 2 ^ 64 <= x < 0 -> uint64 x = x + 2 ^ 64.
Proof.
  intros H. unfold uint64.
  rewrite (mod_shift x (2 ^ 64) 1); lia.
Qed.

End Wrap.

Section Digits.

Lemma digit_split (u : Z) :
  0 <= u -> 0 <= u - u / 10 * 10 <= 9 /\ 0 <= u / 10 /\ u / 10 * 10 <= u.
Proof.
  intros Hu.
  pose proof (Z.div_mod u 10 ltac:(lia)) as E.
  pose proof (Z.mod_pos_bound u 10 ltac:(lia)) as B.
  pose proof (Z.div_pos u 10 Hu ltac:(lia)) as P.
  lia.
Qed.

Lemma div10_bound (u : Z) (k : nat) :
  0 <= u < 10 ^ (Z.of_nat (S k) + 1) -> u / 10 < 10 ^ (Z.of_nat k + 1).
Proof.
  intros H. apply Z.div_lt_upper_bound; [lia|].
  replace (Z.of_nat (S k) + 1) with (Z.succ (Z.of_nat k + 1)) in H by lia.
  rewrite Z.pow_succ_r in H by lia. lia.
Qed.

Lemma fmtInteger_loop_head (fuel : nat) (u : Z) (acc : string) :
  0 <= u < 10 ^ (Z.of_nat fuel + 1) ->
  exists d s, 0 <= d <= 9 /\
    fmt.fmtInteger_loop fuel u acc = String (byte (48 + d)) s.
Proof.
  revert u acc. induction fuel as [|fuel IH]; intros u acc Hu.
  - exists u, acc. simpl in *. split; [lia | reflexivity].
  - cbn [fmt.fmtInteger_loop]. destruct (10 <=? u) eqn:E.
    + apply IH. pose proof (digit_split u ltac:(lia)).
      pose proof (div10_bound u fuel Hu). lia.
    + apply Z.leb_gt in E. exists u, acc. split; [lia | reflexivity].
Qed.

Lemma fmtInteger_loop_free (fuel : nat) (u : Z) (acc : string) :
  0 <= u < 10 ^ (Z.of_nat fuel + 1) ->
  free_of "/" acc = true ->
  free_of "/" (fmt.fmtInteger_loop fuel u acc) = true.
Proof.
  assert (D : forall d s, 0 <= d <= 9 -> free_of "/" s = true ->
              free_of "/" (String (byte (48 + d)) s) = true).
  { intros d s Hd Hs. cbn [free_of]. rewrite Hs.
    rewrite (byte_digit_not d "/" Hd); [reflexivity|].
    left. vm_compute. reflexivity. }
  revert u acc. induction fuel as [|fuel IH]; intros u acc Hu Hacc.
  - apply D; simpl in *; [lia | assumption].
  - cbn [fmt.fmtInteger_loop]. destruct (10 <=? u) eqn:E.
    + pose proof (digit_split u ltac:(lia)).
      pose proof (div10_bound u fuel Hu).
      apply IH; [lia|].
      replace (48 + u - u / 10 * 10) with (48 + (u - u / 10 * 10)) by ring.
      apply D; [lia | assumption].
    + apply Z.leb_gt in E. apply D; [lia | assumption].
Qed.

Lemma Atoi_loop_digit (ws : wordSize) (d n : Z) (s : string) :
  0 <= d <= 9 ->
  strconv.Atoi_loop ws (String (byte (48 + d)) s) n
  = strconv.Atoi_loop ws s (int ws (n * 10 + d)).
Proof.
  intros Hd. cbn [strconv.Atoi_loop].
  rewrite byteZ_byte by lia.
  replace (48 + d - 48) with d by ring.
  rewrite Z.mod_small by lia.
  destruct (9 <? d) eqn:E; [apply Z.ltb_lt in E; lia | reflexivity].
Qed.

Lemma ParseUint_loop_digit (maxVal d n : Z) (s : string) :
  0 <= d <= 9 -> 0 <= n -> n * 10 + d <= maxVal -> maxVal < 2 ^ 64 ->
  strconv.ParseUint_loop maxVal (String (byte (48 + d)) s) n
  = strconv.ParseUint_loop maxVal s (n * 10 + d).
Proof.
  intros Hd Hn Hmax Hlim. cbn [strconv.ParseUint_loop].
  rewrite byteZ_byte by lia.
  replace (48 <=? 48 + d) with true by (symmetry; apply Z.leb_le; lia).
  replace (48 + d <=? 57) with true by (symmetry; apply Z.leb_le; lia).
  cbn [andb]. replace (48 + d - 48) with d by ring.
  replace (10 <=? d) with false by (symmetry; apply Z.leb_gt; lia).
  assert (C : strconv.cutoff10 = 1844674407370955162) by reflexivity.
  change (2 ^ 64) with 18446744073709551616 in Hlim.
  replace (strconv.cutoff10 <=? n) with false
    by (symmetry; apply Z.leb_gt; lia).
  rewrite (uint64_small (n * 10))
    by (change (2 ^ 64) with 18446744073709551616; lia).
  rewrite (uint64_small (n * 10 + d))
    by (change (2 ^ 64) with 18446744073709551616; lia).
  replace (n * 10 + d <? n * 10) with false by (symmetry; apply Z.ltb_ge; lia).
  replace (maxVal <? n * 10 + d) with false by (symmetry; apply Z.ltb_ge; lia).
  reflexivity.
Qed.

Lemma Atoi_loop_fmt (ws : wordSize) (fuel : nat) (u : Z) (acc : string) :
  0 <= u < 10 ^ (Z.of_nat fuel + 1) -> u < 2 ^ 31 ->
  strconv.Atoi_loop ws (fmt.fmtInteger_loop fuel u acc) 0
  = strconv.Atoi_loop ws acc u.
Proof.
  revert u acc. induction fuel as [|fuel IH]; intros u acc Hu H31.
  - cbn [fmt.fmtInteger_loop]. simpl in Hu.
    rewrite Atoi_loop_digit by lia.
    rewrite int_small by (unfold in_int32; lia). reflexivity.
  - cbn [fmt.fmtInteger_loop]. destruct (10 <=? u) eqn:E.
    + pose proof (digit_split u ltac:(lia)).
      pose proof (div10_bound u fuel Hu).
      rewrite IH by lia.
      replace (48 + u - u / 10 * 10) with (48 + (u - u / 10 * 10)) by ring.
      rewrite Atoi_loop_digit by lia.
      replace (u / 10 * 10 + (u - u / 10 * 10)) with u by ring.
      rewrite int_small by (unfold in_int32; lia). reflexivity.
    + apply Z.leb_gt in E.
      rewrite Atoi_loop_digit by lia.
      rewrite int_small by (unfold in_int32; lia). reflexivity.
Qed.

Lemma ParseUint_loop_fmt (maxVal : Z) (fuel : nat) (u : Z) (acc : string) :
  0 <= u < 10 ^ (Z.of_nat fuel + 1) -> u <= maxVal -> maxVal < 2 ^ 64 ->
  strconv.ParseUint_loop maxVal (fmt.fmtInteger_loop fuel u acc) 0
  = strconv.ParseUint_loop maxVal acc u.
Proof.
  revert u acc. induction fuel as [|fuel IH]; intros u acc Hu Hmax Hlim.
  - cbn [fmt.fmtInteger_loop]. simpl in Hu.
    rewrite ParseUint_loop_digit by lia. reflexivity.
  - cbn [fmt.fmtInteger_loop]. destruct (10 <=? u) eqn:E.
    + pose proof (digit_split u ltac:(lia)).
      pose proof (div10_bound u fuel Hu).
      rewrite IH by lia.
      replace (48 + u - u / 10 * 10) with (48 + (u - u / 10 * 10)) by ring.
      rewrite ParseUint_loop_digit by lia.
      replace (u / 10 * 10 + (u - u / 10 * 10)) with u by ring.
      reflexivity.
    + apply Z.leb_gt in E.
      rewrite ParseUint_loop_digit by lia. reflexivity.
Qed.

End Digits.

Section RoundTrip.

Lemma bound20 (u : Z) : 0 <= u <= 2 ^ 31 -> 0 <= u < 10 ^ (Z.of_nat 20 + 1).
Proof.
  change (2 ^ 31) with 2147483648.
  change (10 ^ (Z.of_nat 20 + 1)) with 1000000000000000000000. lia.
Qed.

Lemma fmt_d_nonneg (v : Z) :
  0 <= v < 2 ^ 31 -> fmt.fmt_d v = fmt.fmtInteger_loop 20 v EmptyString.
Proof.
  change (2 ^ 31) with 2147483648. intros H. unfold fmt.fmt_d.
  rewrite uint64_small by (change (2 ^ 64) with 18446744073709551616; lia).
  rewrite int64_small by (change (2 ^ 63) with 9223372036854775808; lia).
  replace (v <? 0) with false by (symmetry; apply Z.ltb_ge; lia).
  reflexivity.
Qed.

Lemma fmt_d_neg (v : Z) :
  - 2 ^ 31 <= v < 0 ->
  fmt.fmt_d v = String "-" (fmt.fmtInteger_loop 20 (- v) EmptyString).
Proof.
  change (2 ^ 31) with 2147483648. intros H. unfold fmt.fmt_d.
  rewrite (uint64_neg v) by (change (2 ^ 64) with 18446744073709551616; lia).
  assert (E : int64 (v + 2 ^ 64) = v).
  { unfold int64, wrapS. change (2 ^ (64 - 1)) with 9223372036854775808.
    change (2 ^ 64) with 18446744073709551616.
    rewrite (mod_shift _ 18446744073709551616 (-1)); lia. }
  rewrite E.
  replace (v <? 0) with true by (symmetry; apply Z.ltb_lt; lia).
  replace (uint64 (- (v + 2 ^ 64))) with (- v); [reflexivity|].
  unfold uint64. change (2 ^ 64) with 18446744073709551616.
  rewrite (mod_shift _ 18446744073709551616 1); lia.
Qed.

Lemma maxVal_eq (ws : wordSize) :
  uint64 (uint64 (2 ^ intSize ws) - 1) = 2 ^ intSize ws - 1.
Proof. destruct ws; reflexivity. Qed.

Lemma cutoff_ge (ws : wordSize) : 2 ^ 31 <= 2 ^ (intSize ws - 1).
Proof. destruct ws; vm_compute; discriminate. Qed.

Lemma maxVal_bounds (ws : wordSize) :
  2 ^ 31 <= 2 ^ intSize ws - 1 < 2 ^ 64.
Proof. destruct ws; vm_compute; split; (discriminate || reflexivity). Qed.

(** [ParseUint] reads back the digits written for [u]. *)
Lemma ParseUint_fmt (ws : wordSize) (u : Z) :
  0 <= u <= 2 ^ 31 ->
  strconv.ParseUint ws (fmt.fmtInteger_loop 20 u EmptyString) = (u, None).
Proof.
  intros Hu.
  destruct (fmtInteger_loop_head 20 u EmptyString (bound20 u Hu))
    as (d & s & Hd & Hs).
  unfold strconv.ParseUint. rewrite Hs at 1. rewrite maxVal_eq.
  pose proof (maxVal_bounds ws).
  rewrite ParseUint_loop_fmt; [reflexivity | apply bound20; lia | lia | lia].
Qed.

Lemma Atoi_digits (ws : wordSize) (u : Z) :
  0 <= u < 2 ^ 31 ->
  strconv.Atoi ws (fmt.fmtInteger_loop 20 u EmptyString) = (u, None).
Proof.
  intros Hu.
  destruct (fmtInteger_loop_head 20 u EmptyString (bound20 u ltac:(lia)))
    as (d & s & Hd & Hs).
  assert (Hm : Ascii.eqb (byte (48 + d)) "-" = false)
    by (apply byte_digit_not; [lia | left; vm_compute; reflexivity]).
  assert (Hp : Ascii.eqb (byte (48 + d)) "+" = false)
    by (apply byte_digit_not; [lia | left; vm_compute; reflexivity]).
  unfold strconv.Atoi.
  match goal with |- (if ?c then _ else _) = _ => destruct c end.
  - rewrite Hs at 1. rewrite Hm, Hp. cbn [orb andb].
    rewrite Atoi_loop_fmt by (try apply bound20; lia).
    reflexivity.
  - unfold strconv.ParseInt. rewrite Hs at 1. rewrite Hm, Hp.
    rewrite ParseUint_fmt by lia.
    pose proof (cutoff_ge ws).
    cbn [negb andb].
    replace (2 ^ (intSize ws - 1) <=? u) with false
      by (symmetry; apply Z.leb_gt; lia).
    rewrite int64_small
      by (change (2 ^ 63) with 9223372036854775808;
          change (2 ^ 31) with 2147483648 in Hu; lia).
    rewrite int_small by (unfold in_int32; lia). reflexivity.
Qed.

Lemma Atoi_minus_digits (ws : wordSize) (u : Z) :
  0 < u <= 2 ^ 31 ->
  strconv.Atoi ws (String "-" (fmt.fmtInteger_loop 20 u EmptyString))
  = (- u, None).
Proof.
  intros Hu.
  destruct (Z.eq_dec u (2 ^ 31)) as [->|Hne].
  { destruct ws; vm_compute; reflexivity. }
  destruct (fmtInteger_loop_head 20 u EmptyString (bound20 u ltac:(lia)))
    as (d & s & Hd & Hs).
  unfold strconv.Atoi.
  match goal with |- (if ?c then _ else _) = _ => destruct c end.
  - cbv beta iota zeta.
    change (Ascii.eqb "-" "-") with true. cbn [orb andb].
    rewrite Hs at 1. cbn [String.length].
    replace (Z.of_nat (S (String.length s)) <? 1) with false
      by (symmetry; apply Z.ltb_ge; lia).
    rewrite Atoi_loop_fmt by (try apply bound20; lia).
    cbn [strconv.Atoi_loop].
    rewrite int_small by (unfold in_int32; lia). reflexivity.
  - unfold strconv.ParseInt.
    change (Ascii.eqb "-" "-") with true.
    change (Ascii.eqb "-" "+") with false. cbv beta iota zeta.
    rewrite ParseUint_fmt by lia.
    pose proof (cutoff_ge ws).
    cbn [negb andb].
    replace (2 ^ (intSize ws - 1) <? u) with false
      by (symmetry; apply Z.ltb_ge; lia).
    rewrite (int64_small u)
      by (change (2 ^ 63) with 9223372036854775808;
          change (2 ^ 31) with 2147483648 in Hu; lia).
    rewrite (int64_small (- u))
      by (change (2 ^ 63) with 9223372036854775808;
          change (2 ^ 31) with 2147483648 in Hu; lia).
    rewrite int_small by (unfold in_int32; lia). reflexivity.
Qed.

(** [Atoi] undoes [%d] on every [int32], whatever the width of [int]. *)
Lemma Atoi_fmt_d (ws : wordSize) (v : Z) :
  in_int32 v -> strconv.Atoi ws (fmt.fmt_d v) = (v, None).
Proof.
  unfold in_int32. intros Hv. destruct (Z_lt_le_dec v 0) as [Hneg|Hpos].
  - rewrite fmt_d_neg by lia. rewrite Atoi_minus_digits by lia.
    f_equal. lia.
  - rewrite fmt_d_nonneg by lia. apply Atoi_digits. lia.
Qed.

Lemma fmt_d_free (v : Z) : in_int32 v -> free_of "/" (fmt.fmt_d v) = true.
Proof.
  unfold in_int32. intros Hv. destruct (Z_lt_le_dec v 0) as [Hneg|Hpos].
  - rewrite fmt_d_neg by lia. cbn [free_of].
    change (Ascii.eqb "-" "/") with false. cbn [negb andb].
    apply fmtInteger_loop_free; [apply bound20; lia | reflexivity].
  - rewrite fmt_d_nonneg by lia.
    apply fmtInteger_loop_free; [apply bound20; lia | reflexivity].
Qed.

End RoundTrip.

Section Decode.

(** Decoding a marker of three separator-free fields, in terms of what
    [Atoi] makes of each field. *)
Lemma expandRange_marker (ws : wordSize) (a b c : string) :
  free_of "/" a = true -> free_of "/" b = true -> free_of "/" c = true ->
  expandRange ws (marker a b c) =
    match parsed ws c with
    | None => Returned (-1, -1, -1)
    | Some count =>
        Returned (int32 (default count (parsed ws a)),
                  int32 (default count (parsed ws b)),
                  int32 count)
    end.
Proof.
  intros Ha Hb Hc. unfold expandRange, parsed.
  rewrite (Split_marker a b c Ha Hb Hc).
  cbn [index lookup list_lookup mbind outcome_bind].
  destruct (strconv.Atoi ws c) as [count [e|]]; [reflexivity|].
  cbn [index lookup list_lookup mbind outcome_bind].
  destruct (strconv.Atoi ws a) as [mn [ea|]];
    destruct (strconv.Atoi ws b) as [mx [eb|]]; reflexivity.
Qed.

(** A string without separator has one field, and [values[2]] panics. *)
Lemma expandRange_one_field (ws : wordSize) (s : string) :
  free_of "/" s = true -> expandRange ws s = Panicked (IndexOutOfRange 2 1).
Proof.
  intros Hs. unfold expandRange. rewrite (Split_free _ _ Hs). reflexivity.
Qed.

End Decode.

(** * The codec, claim by claim *)

(** C1.  Decode is claimed to return a triple on every input and to
    answer ["garbage"] with the sentinel.  The code indexes the third
    field before looking at the number of fields: on ["garbage"], which
    has a single field, [values[2]] panics with an index out of range,
    whatever the width of [int]. *)
Theorem expandRange_garbage_panics (ws : wordSize) :
  expandRange ws "garbage" = Panicked (IndexOutOfRange 2 1).
Proof. apply expandRange_one_field. reflexivity. Qed.

(** C2.  Round trip of the capacity codec: decoding the encoding of any
    triple of 32-bit integers, negative ones and zero included, returns
    that triple. *)
Theorem expandRange_flatRange (ws : wordSize) (min max count : Z) :
  in_int32 min -> in_int32 max -> in_int32 count ->
  expandRange ws (flatRange min max count) = Returned (min, max, count).
Proof.
  intros Hmin Hmax Hcount.
  change (flatRange min max count)
    with (marker (fmt.fmt_d min) (fmt.fmt_d max) (fmt.fmt_d count)).
  rewrite expandRange_marker by (apply fmt_d_free; assumption).
  unfold parsed. rewrite !Atoi_fmt_d by assumption. cbn [default].
  rewrite !int32_small by assumption. reflexivity.
Qed.

Lemma expandRange_flatRange_witness :
  in_int32 0 /\ in_int32 (-1) /\ in_int32 (-2147483648) /\
  expandRange W32 (flatRange 0 (-1) (-2147483648))
  = Returned (0, -1, -2147483648).
Proof.
  assert (H0 : in_int32 0) by (unfold in_int32; lia).
  assert (H1 : in_int32 (-1)) by (unfold in_int32; lia).
  assert (H2 : in_int32 (-2147483648)) by (unfold in_int32; lia).
  split; [exact H0|]. split; [exact H1|]. split; [exact H2|].
  exact (expandRange_flatRange W32 0 (-1) (-2147483648) H0 H1 H2).
Defined.

(** C3.  On a three-field input the count field decides: when it does
    not parse, the decode is the sentinel triple; when it parses, a min
    or max field that does not parse takes the value of count, each one
    on its own, and a field that parses is kept. *)
Theorem expandRange_count_decides (ws : wordSize) (a b c : string) :
  free_of "/" a = true -> free_of "/" b = true -> free_of "/" c = true ->
  (parsed ws c = None ->
   expandRange ws (marker a b c) = Returned (-1, -1, -1))
  /\ (forall count : Z, parsed ws c = Some count ->
      expandRange ws (marker a b c)
      = Returned (int32 (default count (parsed ws a)),
                  int32 (default count (parsed ws b)),
                  int32 count)).
Proof.
  intros Ha Hb Hc. rewrite (expandRange_marker ws a b c Ha Hb Hc).
  split.
  - intros ->. reflexivity.
  - intros count ->. reflexivity.
Qed.

Lemma expandRange_count_decides_witness :
  expandRange W64 "/50/3" = Returned (3, 50, 3).
Proof.
  exact (proj2 (expandRange_count_decides W64 "" "50" "3"
                  eq_refl eq_refl eq_refl) 3 eq_refl).
Defined.

(** C9.  The decode does not hold the count to 32 bits: where [int] has
    64 bits, the count field ["4294967296"] parses, lies outside the
    32-bit range, and is cut down to its low 32 bits, so that
    ["0/0/4294967296"] decodes to the count 0 and not to the sentinel. *)
Theorem expandRange_count_beyond_int32 :
  parsed W64 "4294967296" = Some 4294967296
  /\ ~ in_int32 4294967296
  /\ int32 4294967296 = 4294967296 mod 2 ^ 32
  /\ expandRange W64 "0/0/4294967296" = Returned (0, 0, 0).
Proof.
  split; [reflexivity|]. split; [unfold in_int32; lia|].
  split; reflexivity.
Qed.


(** * Properties of the batch operations *)

Section Batches.

Context {NodePool World error : Type}.
Context {clusterProvider : ClusterProvider NodePool World error}.

Lemma SetNodePoolSizes_range_eq (nodePools : list NodePool) (size : Z)
    (st : run NodePool World) :
  SetNodePoolSizes nodePools size st
  = SetNodePoolSizes_range nodePools size st.
Proof. destruct nodePools; reflexivity. Qed.

Lemma ResetNodePoolSizes_range_eq (ws : wordSize)
    (nodePools : list NodePool) (st : run NodePool World) :
  ResetNodePoolSizes ws nodePools st
  = ResetNodePoolSizes_range ws nodePools st.
Proof. destruct nodePools; reflexivity. Qed.

(** A batch over [pre ++ post] runs [post] where [pre] left off, unless
    [pre] already returned an error. *)
Lemma SetNodePoolSizes_range_app (pre post : list NodePool) (size : Z)
    (st : run NodePool World) :
  SetNodePoolSizes_range (pre ++ post) size st =
    match SetNodePoolSizes_range pre size st with
    | (None, st') => SetNodePoolSizes_range post size st'
    | (Some e, st') => (Some e, st')
    end.
Proof.
  revert st. induction pre as [|a pre IH]; intros st.
  - reflexivity.
  - cbn [app SetNodePoolSizes_range].
    destruct (cpUpdateNodePoolSize a size st) as [[e|] st1]; [reflexivity|].
    destruct (cpCreateOrUpdateTags a false _ st1) as [[e|] st2];
      [reflexivity | apply IH].
Qed.

Lemma ResetNodePoolSizes_range_app (ws : wordSize)
    (pre post : list NodePool) (st : run NodePool World) :
  ResetNodePoolSizes_range ws (pre ++ post) st =
    match ResetNodePoolSizes_range ws pre st with
    | (Returned None, st') => ResetNodePoolSizes_range ws post st'
    | other => other
    end.
Proof.
  revert st. induction pre as [|a pre IH]; intros st.
  - reflexivity.
  - cbn [app ResetNodePoolSizes_range].
    destruct (Tags a (world st) !! EKSNodeGroupPreviousKey) as [tag|];
      [|apply IH].
    destruct (expandRange ws tag) as [[[mn mx] count]|p]; [|reflexivity].
    destruct (count <? 0); [apply IH|].
    destruct (cpUpdateNodePoolSize a count st) as [[e|] st1]; [reflexivity|].
    destruct (cpDeleteTags a _ st1) as [[e|] st2]; [reflexivity | apply IH].
Qed.

(** One pool of [SetNodePoolSizes], reached after the pools before it
    went through. *)
Lemma SetNodePoolSizes_step (pre : list NodePool) (np : NodePool)
    (rest : list NodePool) (size : Z) (st st0 : run NodePool World) :
  SetNodePoolSizes pre size st = (None, st0) ->
  SetNodePoolSizes (pre ++ np :: rest) size st =
    let rng := flatRange (MinNodes np (world st0)) (MaxNodes np (world st0))
                         (NodeCount np (world st0)) in
    match cpUpdateNodePoolSize np size st0 with
    | (Some e, st1) => (Some e, st1)
    | (None, st1) =>
        match cpCreateOrUpdateTags np false
                {[ EKSNodeGroupPreviousKey := rng ]} st1 with
        | (Some e, st2) => (Some e, st2)
        | (None, st2) => SetNodePoolSizes rest size st2
        end
    end.
Proof.
  rewrite !SetNodePoolSizes_range_eq. intros Hpre.
  rewrite SetNodePoolSizes_range_app, Hpre.
  cbn [SetNodePoolSizes_range]. cbv zeta.
  destruct (cpUpdateNodePoolSize np size st0) as [[e|] st1]; [reflexivity|].
  destruct (cpCreateOrUpdateTags np false _ st1) as [[e|] st2];
    [reflexivity|].
  symmetry. apply SetNodePoolSizes_range_eq.
Qed.

(** One pool of [ResetNodePoolSizes] whose marker is absent. *)
Lemma ResetNodePoolSizes_step_unmarked (ws : wordSize)
    (pre : list NodePool) (np : NodePool) (rest : list NodePool)
    (st st0 : run NodePool World) :
  ResetNodePoolSizes ws pre st = (Returned None, st0) ->
  Tags np (world st0) !! EKSNodeGroupPreviousKey = None ->
  ResetNodePoolSizes ws (pre ++ np :: rest) st
  = ResetNodePoolSizes ws rest st0.
Proof.
  rewrite !ResetNodePoolSizes_range_eq. intros Hpre Htag.
  rewrite ResetNodePoolSizes_range_app, Hpre.
  cbn [ResetNodePoolSizes_range]. rewrite Htag. reflexivity.
Qed.

(** One pool of [ResetNodePoolSizes] whose marker decodes. *)
Lemma ResetNodePoolSizes_step_marked (ws : wordSize)
    (pre : list NodePool) (np : NodePool) (rest : list NodePool)
    (st st0 : run NodePool World) (tag : string) (mn mx count : Z) :
  ResetNodePoolSizes ws pre st = (Returned None, st0) ->
  Tags np (world st0) !! EKSNodeGroupPreviousKey = Some tag ->
  expandRange ws tag = Returned (mn, mx, count) ->
  ResetNodePoolSizes ws (pre ++ np :: rest) st =
    if count <? 0 then ResetNodePoolSizes ws rest st0
    else
      match cpUpdateNodePoolSize np count st0 with
      | (Some e, st1) => (Returned (Some e), st1)
      | (None, st1) =>
          match cpDeleteTags np [EKSNodeGroupPreviousKey] st1 with
          | (Some e, st2) => (Returned (Some e), st2)
          | (None, st2) => ResetNodePoolSizes ws rest st2
          end
      end.
Proof.
  rewrite !ResetNodePoolSizes_range_eq. intros Hpre Htag Hdec.
  rewrite ResetNodePoolSizes_range_app, Hpre.
  cbn [ResetNodePoolSizes_range]. rewrite Htag, Hdec.
  destruct (count <? 0); [reflexivity|].
  destruct (cpUpdateNodePoolSize np count st0) as [[e|] st1]; [reflexivity|].
  destruct (cpDeleteTags np _ st1) as [[e|] st2]; [reflexivity|].
  symmetry. apply ResetNodePoolSizes_range_eq.
Qed.

(** What the provider has received once a batch of [SetNodePoolSizes]
    went through: for every pool, in order, a resize and then a tag
    write of one marker. *)
Lemma SetNodePoolSizes_success_calls (pre : list NodePool) (size : Z)
    (st st0 : run NodePool World) :
  SetNodePoolSizes pre size st = (None, st0) ->
  exists markers : list string,
    List.length markers = List.length pre /\
    calls st0
    = calls st ++ flat_map (shrunk_and_marked size) (zip pre markers).
Proof.
  rewrite SetNodePoolSizes_range_eq.
  revert st. induction pre as [|a pre IH]; intros st.
  - cbn [SetNodePoolSizes_range]. intros [= <-].
    exists []. split; [reflexivity | cbn; symmetry; apply app_nil_r].
  - cbn [SetNodePoolSizes_range].
    set (rng := flatRange _ _ _).
    unfold cpUpdateNodePoolSize at 1.
    destruct (UpdateNodePoolSize a size (world st)) as [[e|] w1];
      [discriminate|].
    unfold cpCreateOrUpdateTags at 1. cbn [world calls].
    destruct (CreateOrUpdateTags a false _ w1) as [[e|] w2];
      [discriminate|].
    intros H. destruct (IH _ H) as (ms & Hlen & Hcalls).
    exists (rng :: ms). split; [cbn; lia|].
    rewrite Hcalls. cbn [calls zip zip_with flat_map shrunk_and_marked fst snd].
    rewrite <- !app_assoc. reflexivity.
Qed.

(** C7.  On an empty list of pools both batch operations return no
    error and leave the run as it was: the provider receives no call
    and its store is the same. *)
Theorem empty_batch_is_noop (ws : wordSize) (size : Z)
    (st : run NodePool World) :
  SetNodePoolSizes [] size st = (None, st)
  /\ ResetNodePoolSizes ws [] st = (Returned None, st).
Proof. split; reflexivity. Qed.

(** C8.  The steps of [SetNodePoolSizes] for a pool [np] reached after
    the pools before it went through: the marker is the encoding of the
    min, max and count read before the resize; the resize to [size] is
    requested first; when it fails its error is returned and no tag is
    written; when it succeeds the marker is written under
    [cluster.turndown.previous] with [overwrite = false], and the batch
    goes on with the remaining pools only if that write succeeds too. *)
Theorem SetNodePoolSizes_step_order (pre : list NodePool) (np : NodePool)
    (rest : list NodePool) (size : Z) (st st0 : run NodePool World) :
  SetNodePoolSizes pre size st = (None, st0) ->
  SetNodePoolSizes (pre ++ np :: rest) size st =
    let rng := flatRange (MinNodes np (world st0)) (MaxNodes np (world st0))
                         (NodeCount np (world st0)) in
    let resize := CallUpdateNodePoolSize np size in
    let mark :=
      CallCreateOrUpdateTags np false {[ EKSNodeGroupPreviousKey := rng ]} in
    match UpdateNodePoolSize np size (world st0) with
    | (Some e, w1) => (Some e, Run w1 (calls st0 ++ [resize]))
    | (None, w1) =>
        match CreateOrUpdateTags np false
                {[ EKSNodeGroupPreviousKey := rng ]} w1 with
        | (Some e, w2) => (Some e, Run w2 (calls st0 ++ [resize; mark]))
        | (None, w2) =>
            SetNodePoolSizes rest size
              (Run w2 (calls st0 ++ [resize; mark]))
        end
    end.
Proof.
  intros Hpre. rewrite (SetNodePoolSizes_step pre np rest size st st0 Hpre).
  cbv zeta. unfold cpUpdateNodePoolSize.
  destruct (UpdateNodePoolSize np size (world st0)) as [[e|] w1];
    [reflexivity|].
  unfold cpCreateOrUpdateTags. cbn [world calls].
  destruct (CreateOrUpdateTags np false _ w1) as [[e|] w2];
    rewrite <- app_assoc; reflexivity.
Qed.

(** C4.  [SetNodePoolSizes] goes through the pools in order and stops at
    the first failure.  When the pools before [np] went through, each of
    them has received a resize and then a tag write, in the order of the
    list.  If then the resize of [np] fails, the batch returns that
    error, the failed resize is the last call the provider receives (no
    tag write for [np], nothing for the pools after it, nothing undone
    for the pools before it); likewise if the tag write of [np] fails. *)
Theorem SetNodePoolSizes_first_failure_aborts (pre : list NodePool)
    (np : NodePool) (rest : list NodePool) (size : Z)
    (st st0 : run NodePool World) :
  SetNodePoolSizes pre size st = (None, st0) ->
  let rng := flatRange (MinNodes np (world st0)) (MaxNodes np (world st0))
                       (NodeCount np (world st0)) in
  let resize := CallUpdateNodePoolSize np size in
  let mark :=
    CallCreateOrUpdateTags np false {[ EKSNodeGroupPreviousKey := rng ]} in
  (exists markers : list string,
      List.length markers = List.length pre /\
      calls st0
      = calls st ++ flat_map (shrunk_and_marked size) (zip pre markers))
  /\ (forall (e : error) (w1 : World),
        UpdateNodePoolSize np size (world st0) = (Some e, w1) ->
        SetNodePoolSizes (pre ++ np :: rest) size st
        = (Some e, Run w1 (calls st0 ++ [resize])))
  /\ (forall (e : error) (w1 w2 : World),
        UpdateNodePoolSize np size (world st0) = (None, w1) ->
        CreateOrUpdateTags np false {[ EKSNodeGroupPreviousKey := rng ]} w1
        = (Some e, w2) ->
        SetNodePoolSizes (pre ++ np :: rest) size st
        = (Some e, Run w2 (calls st0 ++ [resize; mark]))).
Proof.
  intros Hpre rng resize mark. split; [|split].
  - exact (SetNodePoolSizes_success_calls pre size st st0 Hpre).
  - intros e w1 Hresize.
    rewrite (SetNodePoolSizes_step pre np rest size st st0 Hpre).
    cbv zeta. unfold cpUpdateNodePoolSize. rewrite Hresize. reflexivity.
  - intros e w1 w2 Hresize Hmark.
    rewrite (SetNodePoolSizes_step pre np rest size st st0 Hpre).
    cbv zeta. unfold cpUpdateNodePoolSize, cpCreateOrUpdateTags.
    rewrite Hresize. cbn [world calls]. fold rng. rewrite Hmark.
    rewrite <- app_assoc. reflexivity.
Qed.

(** C5.  [ResetNodePoolSizes] at a pool [np] reached after the pools
    before it went through.  A pool without the key
    [cluster.turndown.previous], or whose marker decodes to a negative
    count (the sentinel), is passed over: the batch goes on with the
    remaining pools from the very same run, no call made, no error.  A
    pool whose marker decodes to a count that is not negative is resized
    to that count and then has the marker key deleted, after which the
    batch goes on. *)
Theorem ResetNodePoolSizes_skip_or_restore (ws : wordSize)
    (pre : list NodePool) (np : NodePool) (rest : list NodePool)
    (st st0 : run NodePool World) :
  ResetNodePoolSizes ws pre st = (Returned None, st0) ->
  (Tags np (world st0) !! EKSNodeGroupPreviousKey = None ->
   ResetNodePoolSizes ws (pre ++ np :: rest) st
   = ResetNodePoolSizes ws rest st0)
  /\ (forall (tag : string) (mn mx count : Z),
        Tags np (world st0) !! EKSNodeGroupPreviousKey = Some tag ->
        expandRange ws tag = Returned (mn, mx, count) ->
        (count < 0 ->
         ResetNodePoolSizes ws (pre ++ np :: rest) st
         = ResetNodePoolSizes ws rest st0)
        /\ (0 <= count ->
            forall w1 w2 : World,
              UpdateNodePoolSize np count (world st0) = (None, w1) ->
              DeleteTags np [EKSNodeGroupPreviousKey] w1 = (None, w2) ->
              ResetNodePoolSizes ws (pre ++ np :: rest) st
              = ResetNodePoolSizes ws rest
                  (Run w2 (calls st0 ++
                     [CallUpdateNodePoolSize np count;
                      CallDeleteTags np [EKSNodeGroupPreviousKey]])))).
Proof.
  intros Hpre. split.
  - apply ResetNodePoolSizes_step_unmarked. exact Hpre.
  - intros tag mn mx count Htag Hdec.
    rewrite (ResetNodePoolSizes_step_marked ws pre np rest st st0
               tag mn mx count Hpre Htag Hdec).
    split.
    + intros Hneg. apply Z.ltb_lt in Hneg. rewrite Hneg. reflexivity.
    + intros Hpos w1 w2 Hresize Hdelete. apply Z.ltb_ge in Hpos.
      rewrite Hpos. unfold cpUpdateNodePoolSize, cpDeleteTags.
      rewrite Hresize. cbn [world calls]. rewrite Hdelete.
      rewrite <- app_assoc. reflexivity.
Qed.

(** C6.  Failures of the provider during [ResetNodePoolSizes].  At a
    pool [np] whose marker decodes to a count that is not negative: if
    the resize fails, the batch returns that error at once, the failed
    resize is the last call the provider receives (the marker of [np] is
    not deleted, the pools after [np] get no call); if the resize
    succeeds and the deletion of the marker fails, the batch returns
    that error at once and the pools after [np] get no call. *)
Theorem ResetNodePoolSizes_failure_aborts (ws : wordSize)
    (pre : list NodePool) (np : NodePool) (rest : list NodePool)
    (st st0 : run NodePool World) (tag : string) (mn mx count : Z) :
  ResetNodePoolSizes ws pre st = (Returned None, st0) ->
  Tags np (world st0) !! EKSNodeGroupPreviousKey = Some tag ->
  expandRange ws tag = Returned (mn, mx, count) ->
  0 <= count ->
  (forall (e : error) (w1 : World),
      UpdateNodePoolSize np count (world st0) = (Some e, w1) ->
      ResetNodePoolSizes ws (pre ++ np :: rest) st
      = (Returned (Some e),
         Run w1 (calls st0 ++ [CallUpdateNodePoolSize np count])))
  /\ (forall (e : error) (w1 w2 : World),
        UpdateNodePoolSize np count (world st0) = (None, w1) ->
        DeleteTags np [EKSNodeGroupPreviousKey] w1 = (Some e, w2) ->
        ResetNodePoolSizes ws (pre ++ np :: rest) st
        = (Returned (Some e),
           Run w2 (calls st0 ++
              [CallUpdateNodePoolSize np count;
               CallDeleteTags np [EKSNodeGroupPreviousKey]]))).
Proof.
  intros Hpre Htag Hdec Hpos. apply Z.ltb_ge in Hpos.
  rewrite (ResetNodePoolSizes_step_marked ws pre np rest st st0
             tag mn mx count Hpre Htag Hdec).
  rewrite Hpos. unfold cpUpdateNodePoolSize, cpDeleteTags. split.
  - intros e w1 Hresize. rewrite Hresize. reflexivity.
  - intros e w1 w2 Hresize Hdelete. rewrite Hresize. cbn [world calls].
    rewrite Hdelete. rewrite <- app_assoc. reflexivity.
Qed.

(** C10.  A marker of three fields whose count field parses to a
    negative number is treated like one that failed to parse: the pool
    is passed over, no resize is attempted, the marker stays, and the
    batch goes on with the remaining pools from the very same run. *)
Theorem ResetNodePoolSizes_negative_count_skipped (ws : wordSize)
    (pre : list NodePool) (np : NodePool) (rest : list NodePool)
    (st st0 : run NodePool World) (a b c : string) (n : Z) :
  ResetNodePoolSizes ws pre st = (Returned None, st0) ->
  free_of "/" a = true -> free_of "/" b = true -> free_of "/" c = true ->
  Tags np (world st0) !! EKSNodeGroupPreviousKey = Some (marker a b c) ->
  parsed ws c = Some n ->
  int32 n < 0 ->
  ResetNodePoolSizes ws (pre ++ np :: rest) st
  = ResetNodePoolSizes ws rest st0.
Proof.
  intros Hpre Ha Hb Hc Htag Hn Hneg.
  pose proof (expandRange_marker ws a b c Ha Hb Hc) as Hdec.
  rewrite Hn in Hdec.
  rewrite (ResetNodePoolSizes_step_marked ws pre np rest st st0
             _ _ _ _ Hpre Htag Hdec).
  apply Z.ltb_lt in Hneg. rewrite Hneg. reflexivity.
Qed.

End Batches.

Section Platforms.

(** Where [int] has 32 bits the same count field is out of range for
    [Atoi], and the decode is the sentinel. *)
Lemma expandRange_count_beyond_int_W32 :
  strconv.Atoi W32 "4294967296" = (2147483647, Some strconv.ErrRange)
  /\ expandRange W32 "0/0/4294967296" = Returned (-1, -1, -1).
Proof. split; reflexivity. Qed.

End Platforms.

(** * The scenarios, run through the theorems *)

Section Scenarios.

Import MemCloud Scenario.

(** Pools [A; B; C], the resize of [B] refused: [A] is shrunk and marked
    with its former range, [B] sees its failed resize only, [C] sees
    nothing, and the error of [B] comes back. *)
Lemma SetNodePoolSizes_first_failure_aborts_witness :
  SetNodePoolSizes ["A"; "B"; "C"] 0 (start cloudABC)
  = (Some "resize refused",
     Run cloudABC_A_down
       [CallUpdateNodePoolSize "A" 0;
        CallCreateOrUpdateTags "A" false
          {[ EKSNodeGroupPreviousKey := "1/3/2" ]};
        CallUpdateNodePoolSize "B" 0]).
Proof.
  assert (Hpre : SetNodePoolSizes ["A"] 0 (start cloudABC)
                 = (None,
                    Run cloudABC_A_down
                      [CallUpdateNodePoolSize "A" 0;
                       CallCreateOrUpdateTags "A" false
                         {[ EKSNodeGroupPreviousKey := "1/3/2" ]}]))
    by (vm_compute; reflexivity).
  destruct (SetNodePoolSizes_first_failure_aborts
              ["A"] "B" ["C"] 0 _ _ Hpre) as (_ & Hresize & _).
  exact (Hresize "resize refused" cloudABC_A_down eq_refl).
Defined.

(** The first pool of a batch: resize, then the marker of the values
    read before the resize, written without overwrite. *)
Lemma SetNodePoolSizes_step_order_witness :
  SetNodePoolSizes ["A"] 0 (start cloudABC)
  = (None,
     Run cloudABC_A_down
       [CallUpdateNodePoolSize "A" 0;
        CallCreateOrUpdateTags "A" false
          {[ EKSNodeGroupPreviousKey := "1/3/2" ]}]).
Proof.
  etransitivity.
  - exact (SetNodePoolSizes_step_order
             [] "A" [] 0 (start cloudABC) (start cloudABC) eq_refl).
  - vm_compute. reflexivity.
Defined.

(** Pools [A; B], [A] unmarked and [B] marked ["1/5/2"]: [A] is left as
    found, [B] is resized to 2 and loses its marker, no error. *)
Lemma ResetNodePoolSizes_skip_or_restore_witness :
  ResetNodePoolSizes W64 ["A"; "B"] (start cloudAB)
  = (Returned None,
     Run cloudAB_restored
       [CallUpdateNodePoolSize "B" 2;
        CallDeleteTags "B" [EKSNodeGroupPreviousKey]]).
Proof.
  destruct (ResetNodePoolSizes_skip_or_restore W64
              [] "A" ["B"] (start cloudAB) (start cloudAB) eq_refl)
    as [Hskip _].
  etransitivity; [exact (Hskip eq_refl)|].
  destruct (ResetNodePoolSizes_skip_or_restore W64
              [] "B" [] (start cloudAB) (start cloudAB) eq_refl)
    as [_ Hmarked].
  destruct (Hmarked "1/5/2" 1 5 2 eq_refl eq_refl) as [_ Hrestore].
  assert (Hpos : 0 <= 2) by lia.
  etransitivity.
  - exact (Hrestore Hpos _ _ eq_refl eq_refl).
  - vm_compute. reflexivity.
Defined.

(** Pools [B; C], both marked, the resize of [B] refused: the error
    comes back, the store is as it was (the marker of [B] included) and
    the failed resize is the only call. *)
Lemma ResetNodePoolSizes_failure_aborts_witness :
  ResetNodePoolSizes W64 ["B"; "C"] (start cloudStuck)
  = (Returned (Some "resize refused"),
     Run cloudStuck [CallUpdateNodePoolSize "B" 2]).
Proof.
  assert (Htag : Tags "B" (world (start cloudStuck))
                   !! EKSNodeGroupPreviousKey = Some "1/5/2")
    by (vm_compute; reflexivity).
  assert (Hdec : expandRange W64 "1/5/2" = Returned (1, 5, 2))
    by (vm_compute; reflexivity).
  assert (Hpos : 0 <= 2) by lia.
  destruct (ResetNodePoolSizes_failure_aborts W64
              [] "B" ["C"] (start cloudStuck) (start cloudStuck)
              "1/5/2" 1 5 2 eq_refl Htag Hdec Hpos)
    as [Hresize _].
  apply Hresize. vm_compute. reflexivity.
Defined.

(** Pools [N; B], [N] marked ["-5/-5/-5"]: the marker parses, its count
    is negative, [N] is passed over and [B] is restored. *)
Lemma ResetNodePoolSizes_negative_count_skipped_witness :
  parsed W64 "-5" = Some (-5)
  /\ ResetNodePoolSizes W64 ["N"; "B"] (start cloudNegative)
     = (Returned None,
        Run cloudNegative_B_restored
          [CallUpdateNodePoolSize "B" 2;
           CallDeleteTags "B" [EKSNodeGroupPreviousKey]]).
Proof.
  assert (Hn : parsed W64 "-5" = Some (-5)) by (vm_compute; reflexivity).
  assert (Htag : Tags "N" (world (start cloudNegative))
                   !! EKSNodeGroupPreviousKey = Some (marker "-5" "-5" "-5"))
    by (vm_compute; reflexivity).
  assert (Hneg : int32 (-5) < 0) by (vm_compute; reflexivity).
  split; [exact Hn|].
  etransitivity.
  - exact (ResetNodePoolSizes_negative_count_skipped W64
             [] "N" ["B"] (start cloudNegative) (start cloudNegative)
             "-5" "-5" "-5" (-5)
             eq_refl eq_refl eq_refl eq_refl Htag Hn Hneg).
  - vm_compute. reflexivity.
Defined.

End Scenarios.

(** * Further properties of the codec *)

Section Fields.

Lemma Split_cons (sep : ascii) (s : string) :
  exists f fs, strings.Split s sep = f :: fs.
Proof.
  induction s as [|c s (f & fs & IH)]; cbn [strings.Split].
  - eauto.
  - destruct (Ascii.eqb c sep); [eauto|]. rewrite IH. eauto.
Qed.

Lemma Split_length (sep : ascii) (s : string) :
  List.length (strings.Split s sep) = S (count_sep sep s).
Proof.
  induction s as [|c s IH]; cbn [strings.Split count_sep]; [reflexivity|].
  destruct (Ascii.eqb c sep); cbn [List.length]; [congruence|].
  destruct (Split_cons sep s) as (f & fs & E). rewrite E in *. exact IH.
Qed.


End Fields.

Section DecodeEdges.

Lemma expandRange_few_fields (ws : wordSize) (s : string) :
  (count_sep "/" s < 2)%nat ->
  expandRange ws s = Panicked (IndexOutOfRange 2 (S (count_sep "/" s))).
Proof.
  pose proof (Split_length "/" s) as Hlen. unfold expandRange. intros E.
  destruct (strings.Split s "/") as [|v0 [|v1 [|v2 vs]]];
    cbn [List.length] in Hlen; try lia;
    rewrite <- Hlen; reflexivity.
Qed.

Lemma expandRange_enough_fields (ws : wordSize) (s : string) :
  (2 <= count_sep "/" s)%nat ->
  exists t : Z * Z * Z, expandRange ws s = Returned t.
Proof.
  pose proof (Split_length "/" s) as Hlen. unfold expandRange. intros E.
  destruct (strings.Split s "/") as [|v0 [|v1 [|v2 vs]]];
    cbn [List.length] in Hlen; try lia.
  cbn [index lookup list_lookup mbind outcome_bind].
  destruct (strconv.Atoi ws v2) as [count [e|]]; [eauto|].
  cbn [index lookup list_lookup mbind outcome_bind].
  destruct (strconv.Atoi ws v0) as [mn [e0|]];
    destruct (strconv.Atoi ws v1) as [mx [e1|]]; eauto.
Qed.

(** The decode panics exactly on the inputs with fewer than two
    separators, with the number of fields in the panic; on every other
    input it returns a triple. *)
Theorem expandRange_panics_below_three_fields (ws : wordSize) (s : string) :
  if (count_sep "/" s <? 2)%nat
  then expandRange ws s
       = Panicked (IndexOutOfRange 2 (S (count_sep "/" s)))
  else exists t : Z * Z * Z, expandRange ws s = Returned t.
Proof.
  destruct (count_sep "/" s <? 2)%nat eqn:E.
  - apply expandRange_few_fields. apply Nat.ltb_lt. exact E.
  - apply expandRange_enough_fields. apply Nat.ltb_ge. exact E.
Qed.

(** Fields after the third are not looked at: a marker followed by a
    separator and anything decodes like the marker alone. *)
Theorem expandRange_ignores_trailing_fields (ws : wordSize)
    (a b c t : string) :
  free_of "/" a = true -> free_of "/" b = true -> free_of "/" c = true ->
  expandRange ws (a +:+ "/" +:+ b +:+ "/" +:+ c +:+ "/" +:+ t)
  = expandRange ws (marker a b c).
Proof.
  intros Ha Hb Hc. unfold expandRange at 1 2.
  rewrite (Split_marker a b c Ha Hb Hc).
  change (a +:+ "/" +:+ b +:+ "/" +:+ c +:+ "/" +:+ t)
    with (a +:+ String "/" (b +:+ String "/" (c +:+ String "/" t))).
  rewrite (Split_field _ _ _ Ha), (Split_field _ _ _ Hb),
    (Split_field _ _ _ Hc).
  reflexivity.
Qed.

Lemma expandRange_ignores_trailing_fields_witness :
  expandRange W64 "1/5/2/junk/9" = Returned (1, 5, 2).
Proof.
  etransitivity.
  - exact (expandRange_ignores_trailing_fields W64 "1" "5" "2" "junk/9"
             eq_refl eq_refl eq_refl).
  - vm_compute. reflexivity.
Defined.




End DecodeEdges.

Section Numerals.

Lemma byteZ_bounds (c : ascii) : 0 <= byteZ c < 256.
Proof.
  unfold byteZ. pose proof (N_ascii_bounded c) as B.
  split; [apply N2Z.is_nonneg|].
  change 256 with (Z.of_N 256). apply N2Z.inj_lt. exact B.
Qed.

Lemma is_digit_spec (c : ascii) :
  is_digit c = true <-> 48 <= byteZ c <= 57.
Proof.
  unfold is_digit. rewrite andb_true_iff, !Z.leb_le. reflexivity.
Qed.

Lemma is_digit_byte (d : Z) : 0 <= d <= 9 -> is_digit (byte (48 + d)) = true.
Proof.
  intros Hd. apply is_digit_spec. rewrite byteZ_byte; lia.
Qed.

Lemma digits_value_digit (d n : Z) (s : string) :
  0 <= d <= 9 ->
  digits_value (String (byte (48 + d)) s) n = digits_value s (n * 10 + d).
Proof.
  intros Hd. cbn [digits_value]. rewrite byteZ_byte by lia.
  f_equal. ring.
Qed.

Lemma fmtInteger_loop_all_digits (fuel : nat) (u : Z) (acc : string) :
  0 <= u < 10 ^ (Z.of_nat fuel + 1) ->
  all_digits acc = true ->
  all_digits (fmt.fmtInteger_loop fuel u acc) = true.
Proof.
  revert u acc. induction fuel as [|fuel IH]; intros u acc Hu Hacc.
  - cbn [fmt.fmtInteger_loop all_digits]. simpl in Hu.
    rewrite is_digit_byte by lia. exact Hacc.
  - cbn [fmt.fmtInteger_loop]. destruct (10 <=? u) eqn:E.
    + pose proof (digit_split u ltac:(lia)).
      pose proof (div10_bound u fuel Hu).
      apply IH; [lia|].
      replace (48 + u - u / 10 * 10) with (48 + (u - u / 10 * 10)) by ring.
      cbn [all_digits]. rewrite is_digit_byte by lia. exact Hacc.
    + apply Z.leb_gt in E. cbn [all_digits].
      rewrite is_digit_byte by lia. exact Hacc.
Qed.

Lemma fmtInteger_loop_value (fuel : nat) (u : Z) (acc : string) :
  0 <= u < 10 ^ (Z.of_nat fuel + 1) ->
  digits_value (fmt.fmtInteger_loop fuel u acc) 0 = digits_value acc u.
Proof.
  revert u acc. induction fuel as [|fuel IH]; intros u acc Hu.
  - cbn [fmt.fmtInteger_loop]. simpl in Hu.
    rewrite digits_value_digit by lia. reflexivity.
  - cbn [fmt.fmtInteger_loop]. destruct (10 <=? u) eqn:E.
    + pose proof (digit_split u ltac:(lia)).
      pose proof (div10_bound u fuel Hu).
      rewrite IH by lia.
      replace (48 + u - u / 10 * 10) with (48 + (u - u / 10 * 10)) by ring.
      rewrite digits_value_digit by lia. f_equal. ring.
    + apply Z.leb_gt in E. rewrite digits_value_digit by lia. reflexivity.
Qed.

(** What [%d] writes for an [int32] is a numeral, and it denotes the
    number written. *)
Lemma fmt_d_numeral (v : Z) :
  in_int32 v ->
  numeral (fmt.fmt_d v) = true /\ numeral_value (fmt.fmt_d v) = v.
Proof.
  unfold in_int32. intros Hv. destruct (Z_lt_le_dec v 0) as [Hneg|Hpos].
  - rewrite fmt_d_neg by lia.
    pose proof (bound20 (- v) ltac:(lia)) as B.
    destruct (fmtInteger_loop_head 20 (- v) EmptyString B)
      as (d & s & Hd & Hs).
    unfold numeral, numeral_value. cbn [unsigned_part].
    change (Ascii.eqb "-" "-") with true. cbn [orb].
    rewrite fmtInteger_loop_value by exact B. cbn [digits_value].
    split; [|lia].
    pose proof (fmtInteger_loop_all_digits 20 (- v) EmptyString B eq_refl)
      as Hall.
    rewrite Hs in *. exact Hall.
  - rewrite fmt_d_nonneg by lia.
    pose proof (bound20 v ltac:(lia)) as B.
    destruct (fmtInteger_loop_head 20 v EmptyString B)
      as (d & s & Hd & Hs).
    pose proof (fmtInteger_loop_all_digits 20 v EmptyString B eq_refl)
      as Hall.
    pose proof (fmtInteger_loop_value 20 v EmptyString B) as Hval.
    rewrite Hs in *.
    assert (Hm : Ascii.eqb (byte (48 + d)) "-" = false)
      by (apply byte_digit_not; [lia | left; vm_compute; reflexivity]).
    assert (Hp : Ascii.eqb (byte (48 + d)) "+" = false)
      by (apply byte_digit_not; [lia | left; vm_compute; reflexivity]).
    unfold numeral, numeral_value. cbn [unsigned_part].
    rewrite Hm, Hp. cbn [orb]. split; [exact Hall | exact Hval].
Qed.

End Numerals.

Section Encode.

(** The marker written for a triple of 32-bit integers has exactly two
    separators, and its three fields are the decimal numerals of min,
    max and count, in that order. *)
Theorem flatRange_wire_format (min max count : Z) :
  in_int32 min -> in_int32 max -> in_int32 count ->
  count_sep "/" (flatRange min max count) = 2%nat
  /\ exists a b c : string,
       strings.Split (flatRange min max count) "/" = [a; b; c]
       /\ (numeral a = true /\ numeral_value a = min)
       /\ (numeral b = true /\ numeral_value b = max)
       /\ (numeral c = true /\ numeral_value c = count).
Proof.
  intros Hmin Hmax Hcount.
  assert (HS : strings.Split (flatRange min max count) "/"
               = [fmt.fmt_d min; fmt.fmt_d max; fmt.fmt_d count]).
  { change (flatRange min max count)
      with (marker (fmt.fmt_d min) (fmt.fmt_d max) (fmt.fmt_d count)).
    apply Split_marker; apply fmt_d_free; assumption. }
  split.
  - pose proof (Split_length "/" (flatRange min max count)) as L.
    rewrite HS in L. cbn [List.length] in L. lia.
  - exists (fmt.fmt_d min), (fmt.fmt_d max), (fmt.fmt_d count).
    auto using fmt_d_numeral.
Qed.

Lemma flatRange_wire_format_witness :
  count_sep "/" (flatRange (-7) 0 2147483647) = 2%nat
  /\ strings.Split (flatRange (-7) 0 2147483647) "/"
     = ["-7"; "0"; "2147483647"].
Proof.
  assert (H0 : in_int32 (-7)) by (unfold in_int32; lia).
  assert (H1 : in_int32 0) by (unfold in_int32; lia).
  assert (H2 : in_int32 2147483647) by (unfold in_int32; lia).
  destruct (flatRange_wire_format (-7) 0 2147483647 H0 H1 H2) as [Hc _].
  split; [exact Hc | vm_compute; reflexivity].
Defined.

(** Two triples of 32-bit integers with the same marker are the same
    triple. *)
Theorem flatRange_injective (min max count min' max' count' : Z) :
  in_int32 min -> in_int32 max -> in_int32 count ->
  in_int32 min' -> in_int32 max' -> in_int32 count' ->
  flatRange min max count = flatRange min' max' count' ->
  (min, max, count) = (min', max', count').
Proof.
  intros Hmin Hmax Hcount Hmin' Hmax' Hcount' E.
  assert (HS : forall a b c, in_int32 a -> in_int32 b -> in_int32 c ->
             strings.Split (flatRange a b c) "/"
             = [fmt.fmt_d a; fmt.fmt_d b; fmt.fmt_d c]).
  { intros a b c Ha Hb Hc.
    change (flatRange a b c)
      with (marker (fmt.fmt_d a) (fmt.fmt_d b) (fmt.fmt_d c)).
    apply Split_marker; apply fmt_d_free; assumption. }
  pose proof (HS min max count Hmin Hmax Hcount) as S1.
  rewrite E, (HS min' max' count' Hmin' Hmax' Hcount') in S1.
  injection S1 as E1 E2 E3.
  apply (f_equal numeral_value) in E1, E2, E3.
  rewrite (proj2 (fmt_d_numeral min Hmin)),
    (proj2 (fmt_d_numeral min' Hmin')) in E1.
  rewrite (proj2 (fmt_d_numeral max Hmax)),
    (proj2 (fmt_d_numeral max' Hmax')) in E2.
  rewrite (proj2 (fmt_d_numeral count Hcount)),
    (proj2 (fmt_d_numeral count' Hcount')) in E3.
  congruence.
Qed.

Lemma flatRange_injective_witness :
  (1, 5, 2) = (1, 5, 2).
Proof.
  assert (H1 : in_int32 1) by (unfold in_int32; lia).
  assert (H5 : in_int32 5) by (unfold in_int32; lia).
  assert (H2 : in_int32 2) by (unfold in_int32; lia).
  exact (flatRange_injective 1 5 2 1 5 2 H1 H5 H2 H1 H5 H2 eq_refl).
Defined.

End Encode.

Section AtoiLoops.

Lemma int_in_int (ws : wordSize) (x : Z) : in_int ws x -> int ws x = x.
Proof.
  unfold in_int, int, wrapS. destruct ws; cbn [intSize].
  - change (2 ^ (32 - 1)) with 2147483648.
    change (2 ^ 32) with 4294967296.
    intros H. rewrite Z.mod_small; lia.
  - change (2 ^ (64 - 1)) with 9223372036854775808.
    change (2 ^ 64) with 18446744073709551616.
    intros H. rewrite Z.mod_small; lia.
Qed.

Lemma pow10_succ (l : nat) :
  10 ^ Z.of_nat (S l) = 10 * 10 ^ Z.of_nat l /\ 0 < 10 ^ Z.of_nat l.
Proof.
  rewrite Nat2Z.inj_succ, Z.pow_succ_r by lia.
  split; [reflexivity | apply Z.pow_pos_nonneg; lia].
Qed.

Lemma digits_value_bounds (s : string) (n : Z) :
  all_digits s = true -> 0 <= n ->
  n * 10 ^ Z.of_nat (String.length s) <= digits_value s n
  /\ digits_value s n < (n + 1) * 10 ^ Z.of_nat (String.length s).
Proof.
  revert n. induction s as [|c s IH]; intros n Hall Hn.
  - cbn. lia.
  - cbn [all_digits] in Hall. apply andb_prop in Hall as [Hc Hs].
    apply is_digit_spec in Hc.
    cbn [digits_value String.length].
    destruct (pow10_succ (String.length s)) as [-> Hpos].
    specialize (IH (n * 10 + (byteZ c - 48)) Hs ltac:(lia)).
    nia.
Qed.

Lemma Atoi_loop_digits (ws : wordSize) (s : string) (n : Z) :
  all_digits s = true -> 0 <= n ->
  (n + 1) * 10 ^ Z.of_nat (String.length s) <= 2 ^ (intSize ws - 1) ->
  strconv.Atoi_loop ws s n = Some (digits_value s n).
Proof.
  revert n. induction s as [|c s IH]; intros n Hall Hn Hfit.
  - reflexivity.
  - cbn [all_digits] in Hall. apply andb_prop in Hall as [Hc Hs].
    apply is_digit_spec in Hc.
    cbn [String.length] in Hfit.
    destruct (pow10_succ (String.length s)) as [E Hpos].
    rewrite E in Hfit.
    cbn [strconv.Atoi_loop digits_value].
    rewrite Z.mod_small by lia.
    replace (9 <? byteZ c - 48) with false by (symmetry; apply Z.ltb_ge; lia).
    rewrite int_in_int by (unfold in_int; nia).
    apply IH; [exact Hs | lia | nia].
Qed.

Lemma Atoi_loop_nondigit (ws : wordSize) (s : string) (n : Z) :
  all_digits s = false -> strconv.Atoi_loop ws s n = None.
Proof.
  revert n. induction s as [|c s IH]; intros n Hall; [discriminate|].
  cbn [all_digits] in Hall. cbn [strconv.Atoi_loop].
  pose proof (byteZ_bounds c) as B.
  destruct (is_digit c) eqn:Hc.
  - apply is_digit_spec in Hc. cbn [andb] in Hall.
    rewrite Z.mod_small by lia.
    replace (9 <? byteZ c - 48) with false by (symmetry; apply Z.ltb_ge; lia).
    apply IH. exact Hall.
  - assert (Hout : byteZ c < 48 \/ 57 < byteZ c).
    { destruct (Z_lt_le_dec (byteZ c) 48); [left; lia|].
      destruct (Z_lt_le_dec 57 (byteZ c)); [right; lia|].
      assert (is_digit c = true) by (apply is_digit_spec; lia). congruence. }
    replace (9 <? (byteZ c - 48) mod 256) with true; [reflexivity|].
    symmetry. apply Z.ltb_lt. destruct Hout as [Hlo|Hhi].
    + rewrite (mod_shift _ 256 1); lia.
    + rewrite Z.mod_small; lia.
Qed.

Lemma ParseUint_loop_digits (maxVal : Z) (s : string) (n : Z) :
  all_digits s = true -> 0 <= n <= maxVal -> maxVal < 2 ^ 64 ->
  strconv.ParseUint_loop maxVal s n =
    if digits_value s n <=? maxVal then (digits_value s n, None)
    else (maxVal, Some strconv.ErrRange).
Proof.
  change (2 ^ 64) with 18446744073709551616.
  revert n. induction s as [|c s IH]; intros n Hall Hn Hlim.
  - cbn [strconv.ParseUint_loop digits_value].
    replace (n <=? maxVal) with true by (symmetry; apply Z.leb_le; lia).
    reflexivity.
  - cbn [all_digits] in Hall. apply andb_prop in Hall as [Hc Hs].
    pose proof Hc as Hd. apply is_digit_spec in Hd.
    cbn [strconv.ParseUint_loop digits_value]. cbv zeta.
    change ((48 <=? byteZ c) && (byteZ c <=? 57)) with (is_digit c).
    rewrite Hc.
    replace (10 <=? byteZ c - 48) with false
      by (symmetry; apply Z.leb_gt; lia).
    pose proof (digits_value_bounds s (n * 10 + (byteZ c - 48)) Hs
                  ltac:(lia)) as [Hlow _].
    assert (Hpos : 0 < 10 ^ Z.of_nat (String.length s))
      by (apply Z.pow_pos_nonneg; lia).
    assert (Hge : n * 10 + (byteZ c - 48)
                  <= digits_value s (n * 10 + (byteZ c - 48))) by nia.
    assert (C : strconv.cutoff10 = 1844674407370955162) by reflexivity.
    destruct (strconv.cutoff10 <=? n) eqn:Ecut.
    { apply Z.leb_le in Ecut.
      replace (digits_value s (n * 10 + (byteZ c - 48)) <=? maxVal)
        with false by (symmetry; apply Z.leb_gt; lia).
      reflexivity. }
    apply Z.leb_gt in Ecut.
    rewrite (uint64_small (n * 10))
      by (change (2 ^ 64) with 18446744073709551616; lia).
    unfold uint64. change (2 ^ 64) with 18446744073709551616.
    destruct (Z_lt_le_dec (n * 10 + (byteZ c - 48)) 18446744073709551616)
      as [Hfit|Hover].
    + rewrite Z.mod_small by lia.
      replace (n * 10 + (byteZ c - 48) <? n * 10) with false
        by (symmetry; apply Z.ltb_ge; lia).
      cbn [orb].
      destruct (maxVal <? n * 10 + (byteZ c - 48)) eqn:Emax.
      * apply Z.ltb_lt in Emax.
        replace (digits_value s (n * 10 + (byteZ c - 48)) <=? maxVal)
          with false by (symmetry; apply Z.leb_gt; lia).
        reflexivity.
      * apply Z.ltb_ge in Emax. apply IH; [exact Hs | lia | lia].
    + rewrite (mod_shift _ 18446744073709551616 (-1)) by lia.
      replace (n * 10 + (byteZ c - 48) + -1 * 18446744073709551616
               <? n * 10) with true by (symmetry; apply Z.ltb_lt; lia).
      cbn [orb].
      replace (digits_value s (n * 10 + (byteZ c - 48)) <=? maxVal)
        with false by (symmetry; apply Z.leb_gt; lia).
      reflexivity.
Qed.

Lemma ParseUint_loop_nondigit (maxVal : Z) (s : string) (n : Z) :
  all_digits s = false ->
  strconv.ParseUint_loop maxVal s n = (0, Some strconv.ErrSyntax)
  \/ strconv.ParseUint_loop maxVal s n = (maxVal, Some strconv.ErrRange).
Proof.
  revert n. induction s as [|c s IH]; intros n Hall; [discriminate|].
  cbn [all_digits] in Hall.
  cbn [strconv.ParseUint_loop]. cbv zeta.
  change ((48 <=? byteZ c) && (byteZ c <=? 57)) with (is_digit c).
  destruct (is_digit c) eqn:Hc.
  - cbn [andb] in Hall.
    destruct (10 <=? byteZ c - 48); [left; reflexivity|].
    destruct (strconv.cutoff10 <=? n); [right; reflexivity|].
    match goal with |- context [if ?b then _ else _] => destruct b end;
      [right; reflexivity | apply IH; exact Hall].
  - destruct ((97 <=? strconv.lower (byteZ c))
              && (strconv.lower (byteZ c) <=? 122)) eqn:Hl;
      [|left; reflexivity].
    apply andb_prop in Hl as [Hl _]. apply Z.leb_le in Hl.
    replace (10 <=? strconv.lower (byteZ c) - 97 + 10) with true
      by (symmetry; apply Z.leb_le; lia).
    left. reflexivity.
Qed.

End AtoiLoops.

Section AtoiSpec.

Lemma int64_neg_int64 (v : Z) :
  0 <= v <= 2 ^ 63 -> int64 (- int64 v) = - v.
Proof.
  intros Hv. destruct (Z.eq_dec v (2 ^ 63)) as [->|Hne]; [reflexivity|].
  rewrite (int64_small v) by lia.
  apply int64_small. change (2 ^ 63) with 9223372036854775808 in *. lia.
Qed.

Lemma numeral_body (s : string) :
  numeral s = true ->
  exists c0 rest c r,
    s = String c0 rest /\ unsigned_part s = String c r
    /\ all_digits (String c r) = true.
Proof.
  unfold numeral. destruct s as [|c0 rest]; [discriminate|].
  destruct (unsigned_part (String c0 rest)) as [|c r] eqn:E; [discriminate|].
  intros H. exists c0, rest, c, r. auto.
Qed.

(** [ParseUint] on a non-empty string of digits. *)
Lemma ParseUint_digits (ws : wordSize) (c : ascii) (r : string) :
  all_digits (String c r) = true ->
  strconv.ParseUint ws (String c r) =
    if digits_value (String c r) 0 <=? 2 ^ intSize ws - 1
    then (digits_value (String c r) 0, None)
    else (2 ^ intSize ws - 1, Some strconv.ErrRange).
Proof.
  intros Hall. unfold strconv.ParseUint. rewrite maxVal_eq.
  pose proof (maxVal_bounds ws) as B.
  apply ParseUint_loop_digits; [exact Hall | | lia].
  change (2 ^ 31) with 2147483648 in B. lia.
Qed.

Lemma ParseInt_numeral (ws : wordSize) (s : string) :
  numeral s = true ->
  (in_int ws (numeral_value s) ->
   strconv.ParseInt ws s = (numeral_value s, None))
  /\ (~ in_int ws (numeral_value s) ->
      (strconv.ParseInt ws s).2 = Some strconv.ErrRange).
Proof.
  intros Hnum.
  destruct (numeral_body s Hnum) as (c0 & rest & c & r & -> & Hbody & Hall).
  pose proof (digits_value_bounds _ 0 Hall ltac:(lia)) as [Hv0 _].
  assert (Hpos : 0 < 10 ^ Z.of_nat (String.length (String c r)))
    by (apply Z.pow_pos_nonneg; lia).
  assert (Hv : 0 <= digits_value (String c r) 0) by nia.
  clear Hv0 Hpos.
  unfold numeral_value, in_int, strconv.ParseInt. rewrite Hbody.
  assert (Hs1 : (if Ascii.eqb c0 "+" then rest
                 else if Ascii.eqb c0 "-" then rest else String c0 rest)
                = String c r).
  { cbn [unsigned_part] in Hbody.
    destruct (Ascii.eqb c0 "-"), (Ascii.eqb c0 "+"); exact Hbody. }
  rewrite Hs1, (ParseUint_digits ws c r Hall).
  set (v := digits_value (String c r) 0) in *.
  assert (K : 2 ^ (intSize ws - 1) * 2 = 2 ^ intSize ws
              /\ 2 ^ 31 <= 2 ^ (intSize ws - 1) <= 2 ^ 63).
  { destruct ws; vm_compute; repeat split; discriminate. }
  destruct K as (K1 & K2 & K3).
  change (2 ^ 31) with 2147483648 in K2.
  change (2 ^ 63) with 9223372036854775808 in K3.
  set (cut := 2 ^ (intSize ws - 1)) in *.
  rewrite <- K1.
  destruct (v <=? cut * 2 - 1) eqn:Efit.
  - apply Z.leb_le in Efit.
    destruct (Ascii.eqb c0 "-"); cbn [negb andb].
    + destruct (cut <? v) eqn:E.
      * apply Z.ltb_lt in E. split; [lia | reflexivity].
      * apply Z.ltb_ge in E. split; [|lia]. intros _.
        rewrite int64_neg_int64
          by (change (2 ^ 63) with 9223372036854775808; lia).
        reflexivity.
    + destruct (cut <=? v) eqn:E.
      * apply Z.leb_le in E. split; [lia | reflexivity].
      * apply Z.leb_gt in E. split; [|lia]. intros _.
        rewrite int64_small
          by (change (2 ^ 63) with 9223372036854775808; lia).
        reflexivity.
  - apply Z.leb_gt in Efit.
    destruct (Ascii.eqb c0 "-"); cbn [negb andb].
    + replace (cut <? cut * 2 - 1) with true
        by (symmetry; apply Z.ltb_lt; lia).
      split; [lia | reflexivity].
    + replace (cut <=? cut * 2 - 1) with true
        by (symmetry; apply Z.leb_le; lia).
      split; [lia | reflexivity].
Qed.

Lemma fast_path_fits (ws : wordSize) (s : string) :
  ((intSize ws =? 32)
   && ((0 <? Z.of_nat (String.length s))
       && (Z.of_nat (String.length s) <? 10))
   || (intSize ws =? 64)
      && ((0 <? Z.of_nat (String.length s))
          && (Z.of_nat (String.length s) <? 19))) = true ->
  (0 < String.length s)%nat
  /\ 10 ^ Z.of_nat (String.length s) <= 2 ^ (intSize ws - 1).
Proof.
  intros H. destruct ws; cbn [intSize] in *.
  - change (32 =? 32) with true in H. change (32 =? 64) with false in H.
    cbn [andb orb] in H. rewrite orb_false_r in H.
    apply andb_prop in H as [H0 H1].
    apply Z.ltb_lt in H0, H1. split; [lia|].
    transitivity (10 ^ 9); [|vm_compute; discriminate].
    apply Z.pow_le_mono_r; lia.
  - change (64 =? 32) with false in H. change (64 =? 64) with true in H.
    cbn [andb orb] in H.
    apply andb_prop in H as [H0 H1].
    apply Z.ltb_lt in H0, H1. split; [lia|].
    transitivity (10 ^ 18); [|vm_compute; discriminate].
    apply Z.pow_le_mono_r; lia.
Qed.

Lemma unsigned_part_length (s : string) :
  (String.length (unsigned_part s) <= String.length s)%nat.
Proof.
  destruct s as [|c0 rest]; cbn [unsigned_part]; [lia|].
  destruct (Ascii.eqb c0 "-" || Ascii.eqb c0 "+"); cbn [String.length]; lia.
Qed.

(** [Atoi] on a numeral: its value when that fits [int], a range error
    otherwise. *)
Lemma Atoi_numeral (ws : wordSize) (s : string) :
  numeral s = true ->
  (in_int ws (numeral_value s) ->
   strconv.Atoi ws s = (numeral_value s, None))
  /\ (~ in_int ws (numeral_value s) ->
      (strconv.Atoi ws s).2 = Some strconv.ErrRange).
Proof.
  intros Hnum. unfold strconv.Atoi.
  match goal with |- context [if ?b then _ else _] =>
    destruct b eqn:Hfast end.
  - destruct (fast_path_fits ws s Hfast) as [_ Hfit].
    destruct (numeral_body s Hnum)
      as (c0 & rest & c & r & -> & Hbody & Hall).
    pose proof (unsigned_part_length (String c0 rest)) as Hlen.
    rewrite Hbody in Hlen.
    assert (Hfit' : 10 ^ Z.of_nat (String.length (String c r))
                    <= 2 ^ (intSize ws - 1)).
    { etransitivity; [|exact Hfit]. apply Z.pow_le_mono_r; lia. }
    pose proof (digits_value_bounds _ 0 Hall ltac:(lia)) as [Hlo Hhi].
    assert (Hpos : 0 < 10 ^ Z.of_nat (String.length (String c r)))
      by (apply Z.pow_pos_nonneg; lia).
    assert (Hs1 : (if Ascii.eqb c0 "-" || Ascii.eqb c0 "+"
                   then rest else String c0 rest) = String c r)
      by exact Hbody.
    cbv zeta. rewrite Hs1.
    replace (Z.of_nat (String.length (String c r)) <? 1) with false
      by (symmetry; apply Z.ltb_ge; cbn [String.length]; lia).
    rewrite andb_false_r.
    rewrite (Atoi_loop_digits ws _ 0 Hall) by lia.
    unfold numeral_value, in_int. rewrite Hbody.
    set (v := digits_value (String c r) 0) in *.
    destruct (Ascii.eqb c0 "-").
    + split; [|lia]. intros _.
      rewrite int_in_int by (unfold in_int; lia). reflexivity.
    + split; [reflexivity | lia].
  - destruct (ParseInt_numeral ws s Hnum) as [Hok Hbad].
    destruct (strconv.ParseInt ws s) as [i64 err]. split.
    + intros Hin. specialize (Hok Hin). injection Hok as -> ->.
      rewrite int_in_int by exact Hin. reflexivity.
    + intros Hout. exact (Hbad Hout).
Qed.

(** [Atoi] on anything that is not a numeral: an error. *)
Lemma Atoi_not_numeral (ws : wordSize) (s : string) :
  numeral s = false -> parsed ws s = None.
Proof.
  intros Hnum.
  assert (Hshape : s = EmptyString
                   \/ exists c0 rest, s = String c0 rest
                      /\ (unsigned_part s = EmptyString
                          \/ all_digits (unsigned_part s) = false)).
  { destruct s as [|c0 rest]; [left; reflexivity|]. right.
    exists c0, rest. split; [reflexivity|].
    unfold numeral in Hnum.
    destruct (unsigned_part (String c0 rest)); [left; reflexivity|].
    right. exact Hnum. }
  unfold parsed, strconv.Atoi.
  match goal with |- context [if ?b then _ else _] => destruct b end.
  - destruct Hshape as [->|(c0 & rest & -> & Hbody)]; [reflexivity|].
    cbv zeta.
    assert (Hs1 : (if Ascii.eqb c0 "-" || Ascii.eqb c0 "+"
                   then rest else String c0 rest)
                  = unsigned_part (String c0 rest)) by reflexivity.
    rewrite Hs1.
    destruct Hbody as [Hempty|Hnd].
    + rewrite Hempty. cbn [unsigned_part] in Hempty.
      destruct (Ascii.eqb c0 "-" || Ascii.eqb c0 "+");
        [reflexivity | discriminate].
    + rewrite (Atoi_loop_nondigit ws _ 0 Hnd).
      match goal with |- context [if ?b then _ else _] => destruct b end;
        reflexivity.
  - destruct Hshape as [->|(c0 & rest & -> & Hbody)]; [reflexivity|].
    unfold strconv.ParseInt.
    assert (Hs1 : (if Ascii.eqb c0 "+" then rest
                   else if Ascii.eqb c0 "-" then rest else String c0 rest)
                  = unsigned_part (String c0 rest)).
    { cbn [unsigned_part].
      destruct (Ascii.eqb c0 "-"), (Ascii.eqb c0 "+"); reflexivity. }
    rewrite Hs1.
    assert (HU : strconv.ParseUint ws (unsigned_part (String c0 rest))
                 = (0, Some strconv.ErrSyntax)
                 \/ strconv.ParseUint ws (unsigned_part (String c0 rest))
                    = (2 ^ intSize ws - 1, Some strconv.ErrRange)).
    { destruct Hbody as [Hempty|Hnd].
      - rewrite Hempty. left. reflexivity.
      - unfold strconv.ParseUint.
        destruct (unsigned_part (String c0 rest)) as [|c r];
          [discriminate|].
        rewrite maxVal_eq. apply ParseUint_loop_nondigit. exact Hnd. }
    destruct HU as [-> | ->]; [reflexivity|].
    assert (K : (2 ^ (intSize ws - 1) <=? 2 ^ intSize ws - 1) = true
                /\ (2 ^ (intSize ws - 1) <? 2 ^ intSize ws - 1) = true)
      by (destruct ws; split; reflexivity).
    destruct K as [K1 K2]. rewrite K1, K2.
    destruct (Ascii.eqb c0 "-"); reflexivity.
Qed.

(** What [Atoi] accepts, and with which value. *)
Lemma parsed_spec (ws : wordSize) (s : string) (n : Z) :
  parsed ws s = Some n
  <-> numeral s = true /\ numeral_value s = n /\ in_int ws n.
Proof.
  split.
  - intros Hp. destruct (numeral s) eqn:Hnum.
    + destruct (Atoi_numeral ws s Hnum) as [Hok Hbad].
      assert (Hdec : in_int ws (numeral_value s)
                     \/ ~ in_int ws (numeral_value s))
        by (unfold in_int; lia).
      destruct Hdec as [Hin|Hout].
      * unfold parsed in Hp. rewrite (Hok Hin) in Hp.
        injection Hp as <-. auto.
      * specialize (Hbad Hout). unfold parsed in Hp.
        destruct (strconv.Atoi ws s) as [m e]. cbn in Hbad.
        rewrite Hbad in Hp. discriminate.
    + rewrite (Atoi_not_numeral ws s Hnum) in Hp. discriminate.
  - intros (Hnum & <- & Hin). unfold parsed.
    rewrite (proj1 (Atoi_numeral ws s Hnum) Hin). reflexivity.
Qed.

Lemma in_int32_in_int (ws : wordSize) (x : Z) : in_int32 x -> in_int ws x.
Proof.
  unfold in_int32, in_int. change (2 ^ 31) with 2147483648.
  destruct ws; cbn [intSize].
  - change (2 ^ (32 - 1)) with 2147483648. lia.
  - change (2 ^ (64 - 1)) with 9223372036854775808. lia.
Qed.

End AtoiSpec.

Section DecodeText.

Lemma all_digits_free (s : string) :
  all_digits s = true -> free_of "/" s = true.
Proof.
  induction s as [|c s IH]; [reflexivity|].
  cbn [all_digits free_of]. intros [Hc Hs]%andb_prop.
  rewrite (IH Hs), andb_true_r. apply negb_true_iff, Ascii.eqb_neq.
  intros ->. discriminate.
Qed.

Lemma numeral_free (s : string) : numeral s = true -> free_of "/" s = true.
Proof.
  intros Hnum.
  destruct (numeral_body s Hnum) as (c0 & rest & c & r & -> & Hbody & Hall).
  cbn [unsigned_part] in Hbody.
  destruct (Ascii.eqb c0 "-") eqn:Em; [|destruct (Ascii.eqb c0 "+") eqn:Ep];
    cbn [orb] in Hbody.
  - apply Ascii.eqb_eq in Em. cbn [free_of].
    rewrite Hbody, (all_digits_free _ Hall). subst c0. reflexivity.
  - apply Ascii.eqb_eq in Ep. cbn [free_of].
    rewrite Hbody, (all_digits_free _ Hall). subst c0. reflexivity.
  - rewrite Hbody. apply all_digits_free. exact Hall.
Qed.

(** A marker of three numerals whose values are 32-bit integers decodes
    to those values, however the numerals are written (a plus sign and
    leading zeros are accepted). *)
Theorem expandRange_reads_numerals (ws : wordSize) (a b c : string) :
  numeral a = true -> numeral b = true -> numeral c = true ->
  in_int32 (numeral_value a) -> in_int32 (numeral_value b) ->
  in_int32 (numeral_value c) ->
  expandRange ws (marker a b c)
  = Returned (numeral_value a, numeral_value b, numeral_value c).
Proof.
  intros Na Nb Nc Ha Hb Hc.
  rewrite expandRange_marker by (apply numeral_free; assumption).
  assert (P : forall s, numeral s = true -> in_int32 (numeral_value s) ->
              parsed ws s = Some (numeral_value s)).
  { intros s Ns Hs. apply parsed_spec.
    auto using in_int32_in_int. }
  rewrite (P a Na Ha), (P b Nb Hb), (P c Nc Hc). cbn [default].
  rewrite !int32_small by assumption. reflexivity.
Qed.

Lemma expandRange_reads_numerals_witness :
  expandRange W32 "+1/007/-0" = Returned (1, 7, 0).
Proof.
  assert (H1 : in_int32 (numeral_value "+1"))
    by (vm_compute; split; [discriminate | reflexivity]).
  assert (H7 : in_int32 (numeral_value "007"))
    by (vm_compute; split; [discriminate | reflexivity]).
  assert (H0 : in_int32 (numeral_value "-0"))
    by (vm_compute; split; [discriminate | reflexivity]).
  exact (expandRange_reads_numerals W32 "+1" "007" "-0"
           eq_refl eq_refl eq_refl H1 H7 H0).
Defined.

(** A three-field marker whose count field is not a numeral (empty, a
    lone sign, any byte that is not a digit after the optional sign), or
    is a numeral too large for [int], decodes to the sentinel. *)
Theorem expandRange_rejects_bad_count (ws : wordSize) (a b c : string) :
  free_of "/" a = true -> free_of "/" b = true -> free_of "/" c = true ->
  numeral c = false \/ ~ in_int ws (numeral_value c) ->
  expandRange ws (marker a b c) = Returned (-1, -1, -1).
Proof.
  intros Ha Hb Hc Hbad.
  rewrite (expandRange_marker ws a b c Ha Hb Hc).
  destruct (parsed ws c) as [n|] eqn:Hp; [|reflexivity].
  apply parsed_spec in Hp as (Hnum & <- & Hin).
  destruct Hbad as [Hnot|Hout]; [congruence | contradiction].
Qed.

Lemma expandRange_rejects_bad_count_witness :
  expandRange W64 "1/5/ 2" = Returned (-1, -1, -1)
  /\ expandRange W64 "1/5/9223372036854775808" = Returned (-1, -1, -1).
Proof.
  split.
  - exact (expandRange_rejects_bad_count W64 "1" "5" " 2"
             eq_refl eq_refl eq_refl (or_introl eq_refl)).
  - assert (Hout : ~ in_int W64 (numeral_value "9223372036854775808"))
      by (vm_compute; intros [_ H]; discriminate H).
    exact (expandRange_rejects_bad_count W64 "1" "5" "9223372036854775808"
             eq_refl eq_refl eq_refl (or_intror Hout)).
Defined.

End DecodeText.

(** * Further properties of the batch operations *)

Section BatchDiscipline.

Context {NodePool World error : Type}.
Context {clusterProvider : ClusterProvider NodePool World error}.







(** When no pool of the list has anything to restore (no marker, or a
    marker with a negative count), [ResetNodePoolSizes] returns no error
    and leaves the run as it was. *)
Theorem ResetNodePoolSizes_nothing_to_restore (ws : wordSize)
    (nodePools : list NodePool) (st : run NodePool World) :
  Forall (nothing_to_restore ws (world st)) nodePools ->
  ResetNodePoolSizes ws nodePools st = (Returned None, st).
Proof.
  rewrite ResetNodePoolSizes_range_eq.
  induction 1 as [|np rest Hnp _ IH]; [reflexivity|].
  cbn [ResetNodePoolSizes_range]. unfold nothing_to_restore in Hnp.
  destruct (Tags np (world st) !! EKSNodeGroupPreviousKey) as [tag|];
    [|exact IH].
  destruct Hnp as (mn & mx & count & -> & Hneg).
  apply Z.ltb_lt in Hneg. rewrite Hneg. exact IH.
Qed.

(** A marker with fewer than three fields stops the batch with a panic:
    when the pools before [np] went through and the marker of [np] has
    fewer than two separators, [ResetNodePoolSizes] panics at [np], with
    the run as the pools before [np] left it; [np] and the pools after
    it get no call. *)
Theorem ResetNodePoolSizes_panics_on_short_marker (ws : wordSize)
    (pre : list NodePool) (np : NodePool) (rest : list NodePool)
    (st st0 : run NodePool World) (tag : string) :
  ResetNodePoolSizes ws pre st = (Returned None, st0) ->
  Tags np (world st0) !! EKSNodeGroupPreviousKey = Some tag ->
  (count_sep "/" tag < 2)%nat ->
  ResetNodePoolSizes ws (pre ++ np :: rest) st
  = (Panicked (IndexOutOfRange 2 (S (count_sep "/" tag))), st0).
Proof.
  rewrite !ResetNodePoolSizes_range_eq. intros Hpre Htag Hshort.
  rewrite ResetNodePoolSizes_range_app, Hpre.
  cbn [ResetNodePoolSizes_range].
  rewrite Htag, (expandRange_few_fields ws tag Hshort). reflexivity.
Qed.

(** A batch that stopped is not changed by pools added after it: an
    error of [SetNodePoolSizes], and an error or a panic of
    [ResetNodePoolSizes], on a list are the outcome on every longer
    list, with the same run. *)
Theorem failed_batch_is_final (ws : wordSize) (pre post : list NodePool)
    (size : Z) (st : run NodePool World) :
  (forall (e : error) (st1 : run NodePool World),
      SetNodePoolSizes pre size st = (Some e, st1) ->
      SetNodePoolSizes (pre ++ post) size st = (Some e, st1))
  /\ (forall (r : outcome (option error)) (st1 : run NodePool World),
        ResetNodePoolSizes ws pre st = (r, st1) ->
        r <> Returned None ->
        ResetNodePoolSizes ws (pre ++ post) st = (r, st1)).
Proof.
  split.
  - intros e st1. rewrite !SetNodePoolSizes_range_eq. intros H.
    rewrite SetNodePoolSizes_range_app, H. reflexivity.
  - intros r st1. rewrite !ResetNodePoolSizes_range_eq. intros H Hr.
    rewrite ResetNodePoolSizes_range_app, H.
    destruct r as [[e|]|p]; [reflexivity | contradiction | reflexivity].
Qed.


(** If the provider, in every store that satisfies [Inv], resizes and
    deletes the marker key without error and keeps [Inv], and every
    marker in such a store has at least three fields, then from such a
    store [ResetNodePoolSizes] returns no error (and does not panic) and
    keeps [Inv]. *)
Theorem ResetNodePoolSizes_succeeds (ws : wordSize) (Inv : World -> Prop)
    (nodePools : list NodePool) (st : run NodePool World) :
  (forall (np : NodePool) (size : Z) (w : World), Inv w ->
      exists w', UpdateNodePoolSize np size w = (None, w') /\ Inv w') ->
  (forall (np : NodePool) (w : World), Inv w ->
      exists w',
        DeleteTags np [EKSNodeGroupPreviousKey] w = (None, w') /\ Inv w') ->
  (forall (np : NodePool) (w : World) (tag : string), Inv w ->
      Tags np w !! EKSNodeGroupPreviousKey = Some tag ->
      (2 <= count_sep "/" tag)%nat) ->
  Inv (world st) ->
  exists st' : run NodePool World,
    ResetNodePoolSizes ws nodePools st = (Returned None, st')
    /\ Inv (world st').
Proof.
  intros Hresize Hdelete Hfields. rewrite ResetNodePoolSizes_range_eq.
  revert st. induction nodePools as [|np rest IH]; intros st Hst.
  - exists st. split; [reflexivity | exact Hst].
  - cbn [ResetNodePoolSizes_range].
    destruct (Tags np (world st) !! EKSNodeGroupPreviousKey) as [tag|] eqn:Ht;
      [|apply IH; exact Hst].
    destruct (expandRange_enough_fields ws tag (Hfields np _ tag Hst Ht))
      as ([[mn mx] count] & ->).
    destruct (count <? 0); [apply IH; exact Hst|].
    unfold cpUpdateNodePoolSize at 1.
    destruct (Hresize np count (world st) Hst) as (w1 & -> & H1).
    unfold cpDeleteTags at 1. cbn [world calls].
    destruct (Hdelete np w1 H1) as (w2 & -> & H2).
    apply IH. exact H2.
Qed.

End BatchDiscipline.

(** * The batch operations on the in-memory provider *)

Section OnMemCloud.

Import MemCloud Ledger.

Lemma resize_ok (np : string) (size : Z) (w : cloud) :
  resize_refused w = [] ->
  UpdateNodePoolSize np size w
  = (None, with_pools (alter (fun p =>
             Pool (pool_min p) (pool_max p) size (pool_tags p)) np) w).
Proof. intros H. cbn. rewrite H. reflexivity. Qed.

Lemma mark_ok (np : string) (tags : gmap string string) (w : cloud) :
  tagging_refused w = [] ->
  CreateOrUpdateTags np false tags w
  = (None, with_pools (alter (fun p =>
             Pool (pool_min p) (pool_max p) (pool_count p)
                  (tags ∪ pool_tags p)) np) w).
Proof. intros H. cbn. rewrite H. reflexivity. Qed.

Lemma unmark_ok (np : string) (w : cloud) :
  untagging_refused w = [] ->
  DeleteTags np [EKSNodeGroupPreviousKey] w
  = (None, with_pools (alter (fun p =>
             Pool (pool_min p) (pool_max p) (pool_count p)
                  (delete EKSNodeGroupPreviousKey (pool_tags p))) np) w).
Proof. intros H. cbn. rewrite H. reflexivity. Qed.

Lemma quiet_with_pools (f : gmap string pool -> gmap string pool)
    (w : cloud) : quiet w -> quiet (with_pools f w).
Proof. intros H. exact H. Qed.

(** [SetNodePoolSizes] on a quiet store and distinct pools: every pool
    of the list ends up shrunk and marked, the others are untouched. *)
Lemma set_range_ledger (size : Z) (l : list string) :
  forall (w : cloud) (cs : list (call string)),
    quiet w -> NoDup l ->
    exists (w' : cloud) (cs' : list (call string)),
      SetNodePoolSizes_range l size (Run w cs) = (None, Run w' cs')
      /\ quiet w'
      /\ (forall k, k ∈ l -> pools w' !! k = shrunk size <$> pools w !! k)
      /\ (forall k, k ∉ l -> pools w' !! k = pools w !! k).
Proof.
  induction l as [|np rest IH]; intros w cs Hq Hnd.
  - exists w, cs. split; [reflexivity|]. split; [exact Hq|].
    split; [|reflexivity]. intros k Hk. by apply elem_of_nil in Hk.
  - apply NoDup_cons in Hnd as [Hnp Hnd].
    pose proof Hq as (Hr & Ht & Hu).
    cbn [SetNodePoolSizes_range]. set (rng := flatRange _ _ _).
    unfold cpUpdateNodePoolSize at 1. cbn [world calls].
    rewrite (resize_ok np size w Hr).
    unfold cpCreateOrUpdateTags at 1. cbn [world calls].
    rewrite mark_ok by exact Ht.
    match goal with |- context [SetNodePoolSizes_range rest size
                                  (Run ?w2 ?cs2)] =>
      destruct (IH w2 cs2 Hq Hnd) as (w' & cs' & Hrun & Hq' & Hin & Hout)
    end.
    exists w', cs'. split; [exact Hrun|]. split; [exact Hq'|].
    cbn [with_pools pools] in Hin, Hout.
    assert (Hnp' : pools w' !! np = shrunk size <$> pools w !! np).
    { rewrite (Hout np Hnp), !lookup_alter_eq.
      subst rng. cbn [MinNodes MaxNodes NodeCount provider world].
      unfold read. destruct (pools w !! np) as [p|];
        cbn [fmap option_fmap option_map]; [|reflexivity].
      unfold shrunk. cbn [pool_min pool_max pool_count pool_tags].
      reflexivity. }
    split.
    + intros k [->|Hk]%elem_of_cons; [exact Hnp'|].
      assert (np <> k) by (intros ->; contradiction).
      rewrite (Hin k Hk), !lookup_alter_ne by assumption. reflexivity.
    + intros k [Hne Hk]%not_elem_of_cons.
      rewrite (Hout k Hk), !lookup_alter_ne by congruence. reflexivity.
Qed.

(** [ResetNodePoolSizes] on a quiet store and distinct pools whose
    markers decode: every pool of the list ends up restored, the others
    are untouched. *)
Lemma reset_range_ledger (ws : wordSize) (l : list string) :
  forall (w : cloud) (cs : list (call string)),
    quiet w -> NoDup l ->
    (forall k p tag, k ∈ l -> pools w !! k = Some p ->
       pool_tags p !! EKSNodeGroupPreviousKey = Some tag ->
       exists t, expandRange ws tag = Returned t) ->
    exists (w' : cloud) (cs' : list (call string)),
      ResetNodePoolSizes_range ws l (Run w cs) = (Returned None, Run w' cs')
      /\ quiet w'
      /\ (forall k, k ∈ l -> pools w' !! k = restored ws <$> pools w !! k)
      /\ (forall k, k ∉ l -> pools w' !! k = pools w !! k).
Proof.
  induction l as [|np rest IH]; intros w cs Hq Hnd Hdec.
  - exists w, cs. split; [reflexivity|]. split; [exact Hq|].
    split; [|reflexivity]. intros k Hk. by apply elem_of_nil in Hk.
  - apply NoDup_cons in Hnd as [Hnp Hnd].
    pose proof Hq as (Hr & Ht & Hu).
    assert (Hskip : pools w !! np = restored ws <$> pools w !! np ->
              exists (w' : cloud) (cs' : list (call string)),
                ResetNodePoolSizes_range ws rest (Run w cs)
                = (Returned None, Run w' cs')
                /\ quiet w'
                /\ (forall k, k ∈ np :: rest ->
                      pools w' !! k = restored ws <$> pools w !! k)
                /\ (forall k, k ∉ np :: rest ->
                      pools w' !! k = pools w !! k)).
    { intros Hsame.
      destruct (IH w cs Hq Hnd) as (w' & cs' & Hrun & Hq' & Hin & Hout).
      { intros k p tag Hk. apply Hdec. by right. }
      exists w', cs'. split; [exact Hrun|]. split; [exact Hq'|]. split.
      - intros k [->|Hk]%elem_of_cons; [|exact (Hin k Hk)].
        rewrite (Hout np Hnp). exact Hsame.
      - intros k [Hne Hk]%not_elem_of_cons. exact (Hout k Hk). }
    cbn [ResetNodePoolSizes_range world].
    cbn [Tags provider]. unfold read at 1.
    destruct (pools w !! np) as [p|] eqn:Hp.
    2:{ rewrite lookup_empty. apply Hskip. reflexivity. }
    unfold restored in Hskip. cbn [fmap option_fmap option_map] in Hskip.
    destruct (pool_tags p !! EKSNodeGroupPreviousKey) as [tag|] eqn:Htag.
    2:{ apply Hskip. reflexivity. }
    destruct (Hdec np p tag ltac:(by left) Hp Htag) as ([[mn mx] count] & E).
    rewrite E in *.
    destruct (count <? 0) eqn:Hneg; [apply Hskip; reflexivity|].
    clear Hskip.
    unfold cpUpdateNodePoolSize at 1. cbn [world calls].
    rewrite (resize_ok np count w Hr).
    unfold cpDeleteTags at 1. cbn [world calls].
    rewrite unmark_ok by exact Hu.
    match goal with |- context [ResetNodePoolSizes_range ws rest
                                  (Run ?w2 ?cs2)] =>
      destruct (IH w2 cs2 Hq Hnd) as (w' & cs' & Hrun & Hq' & Hin & Hout)
    end.
    { intros k q t Hk. cbn [with_pools pools].
      assert (np <> k) by (intros ->; contradiction).
      rewrite !lookup_alter_ne by assumption. apply Hdec. by right. }
    exists w', cs'. split; [exact Hrun|]. split; [exact Hq'|].
    cbn [with_pools pools] in Hin, Hout.
    split.
    + intros k [->|Hk]%elem_of_cons.
      * rewrite (Hout np Hnp), !lookup_alter_eq, Hp.
        cbn [fmap option_fmap option_map]. unfold restored.
        rewrite Htag, E, Hneg. reflexivity.
      * assert (np <> k) by (intros ->; contradiction).
        rewrite (Hin k Hk), !lookup_alter_ne by assumption. reflexivity.
    + intros k [Hne Hk]%not_elem_of_cons.
      rewrite (Hout k Hk), !lookup_alter_ne by congruence. reflexivity.
Qed.

Lemma flatRange_decodes (ws : wordSize) (min max count : Z) :
  in_int32 min -> in_int32 max -> in_int32 count ->
  expandRange ws (flatRange min max count) = Returned (min, max, count).
Proof.
  intros Hmin Hmax Hcount.
  change (flatRange min max count)
    with (marker (fmt.fmt_d min) (fmt.fmt_d max) (fmt.fmt_d count)).
  rewrite expandRange_marker by (apply fmt_d_free; assumption).
  unfold parsed. rewrite !Atoi_fmt_d by assumption. cbn [default].
  rewrite !int32_small by assumption. reflexivity.
Qed.

Lemma shrunk_marker (size : Z) (p : pool) :
  pool_tags (shrunk size p) !! EKSNodeGroupPreviousKey
  = Some (flatRange (pool_min p) (pool_max p) (pool_count p)).
Proof.
  unfold shrunk. cbn [pool_tags].
  apply lookup_union_Some_l, lookup_singleton_eq.
Qed.

Lemma unmarked_shrunk (size count : Z) (p : pool) :
  unmarked count (shrunk size p) = unmarked count p.
Proof.
  unfold unmarked, shrunk. cbn [pool_min pool_max pool_count pool_tags].
  rewrite delete_union, delete_singleton_eq, (left_id_L ∅ (∪)).
  reflexivity.
Qed.

Lemma restored_shrunk (ws : wordSize) (size : Z) (p : pool) :
  restorable p ->
  restored ws (shrunk size p) = unmarked (pool_count p) p.
Proof.
  intros (Hmin & Hmax & Hcount). unfold restored.
  rewrite shrunk_marker.
  rewrite flatRange_decodes
    by (try assumption; unfold in_int32; change (2 ^ 31) with 2147483648 in *;
        lia).
  replace (pool_count p <? 0) with false by (symmetry; apply Z.ltb_ge; lia).
  apply unmarked_shrunk.
Qed.

Lemma unmarked_id (p : pool) :
  pool_tags p !! EKSNodeGroupPreviousKey = None ->
  unmarked (pool_count p) p = p.
Proof.
  intros H. unfold unmarked. rewrite (delete_id _ _ H).
  destruct p; reflexivity.
Qed.

(** Turning pools down and restoring them gives back the store: on a
    provider that refuses nothing, for distinct pools that carry no
    marker and have 32-bit ranges and counts that are not negative,
    [SetNodePoolSizes] followed by [ResetNodePoolSizes] on the same list
    both return no error and leave the store exactly as it was before
    the turndown, whatever the size the pools were shrunk to. *)
Theorem turndown_then_restore_is_identity (ws : wordSize) (w : cloud)
    (nodePools : list string) (size : Z) :
  quiet w -> NoDup nodePools ->
  (forall np p, np ∈ nodePools -> pools w !! np = Some p ->
     restorable p /\ pool_tags p !! EKSNodeGroupPreviousKey = None) ->
  exists st1 st2 : run string cloud,
    SetNodePoolSizes nodePools size (start w) = (None, st1)
    /\ ResetNodePoolSizes ws nodePools st1 = (Returned None, st2)
    /\ world st2 = w.
Proof.
  intros Hq Hnd Hpools.
  rewrite SetNodePoolSizes_range_eq.
  destruct (set_range_ledger size nodePools w [] Hq Hnd)
    as (w1 & cs1 & Hset & Hq1 & Hin1 & Hout1).
  exists (Run w1 cs1). rewrite ResetNodePoolSizes_range_eq.
  destruct (reset_range_ledger ws nodePools w1 cs1 Hq1 Hnd)
    as (w2 & cs2 & Hreset & Hq2 & Hin2 & Hout2).
  { intros k p1 tag Hk Hp1 Htag. rewrite (Hin1 k Hk) in Hp1.
    destruct (pools w !! k) as [p|] eqn:Hp; [|discriminate].
    injection Hp1 as <-. rewrite shrunk_marker in Htag.
    injection Htag as <-.
    destruct (Hpools k p Hk Hp) as [(Hmin & Hmax & Hcount) _].
    eexists. apply flatRange_decodes; try assumption.
    unfold in_int32. change (2 ^ 31) with 2147483648 in *. lia. }
  exists (Run w2 cs2). split; [exact Hset|]. split; [exact Hreset|].
  cbn [world].
  assert (Hmap : pools w2 = pools w).
  { apply map_eq. intros k. destruct (decide (k ∈ nodePools)) as [Hk|Hk].
    - rewrite (Hin2 k Hk), (Hin1 k Hk).
      destruct (pools w !! k) as [p|] eqn:Hp; [|reflexivity].
      cbn [fmap option_fmap option_map].
      destruct (Hpools k p Hk Hp) as [Hres Hnone].
      rewrite (restored_shrunk ws size p Hres), (unmarked_id p Hnone).
      reflexivity.
    - rewrite (Hout2 k Hk), (Hout1 k Hk). reflexivity. }
  destruct Hq as (Hr & Ht & Hu), Hq2 as (Hr2 & Ht2 & Hu2).
  destruct w, w2. cbn in *. congruence.
Qed.


Lemma well_marked_resize (np : string) (size : Z) (w : cloud) :
  well_marked w ->
  well_marked (with_pools (alter (fun p =>
     Pool (pool_min p) (pool_max p) size (pool_tags p)) np) w).
Proof.
  intros H name p tag Hp Htag. cbn [with_pools pools] in Hp.
  rewrite lookup_alter in Hp. case_decide as Hname.
  - subst name. destruct (pools w !! np) as [q|] eqn:Hq; [|discriminate].
    cbn [fmap option_fmap option_map] in Hp. injection Hp as <-.
    exact (H np q tag Hq Htag).
  - exact (H name p tag Hp Htag).
Qed.

Lemma well_marked_unmark (np : string) (w : cloud) :
  well_marked w ->
  well_marked (with_pools (alter (fun p =>
     Pool (pool_min p) (pool_max p) (pool_count p)
          (delete EKSNodeGroupPreviousKey (pool_tags p))) np) w).
Proof.
  intros H name p tag Hp Htag. cbn [with_pools pools] in Hp.
  rewrite lookup_alter in Hp. case_decide as Hname.
  - subst name. destruct (pools w !! np) as [q|] eqn:Hq; [|discriminate].
    cbn [fmap option_fmap option_map] in Hp. injection Hp as <-.
    cbn [pool_tags] in Htag. rewrite lookup_delete_eq in Htag. discriminate.
  - exact (H name p tag Hp Htag).
Qed.

Lemma well_marked_Tags (np : string) (w : cloud) (tag : string) :
  well_marked w ->
  Tags np w !! EKSNodeGroupPreviousKey = Some tag ->
  (2 <= count_sep "/" tag)%nat.
Proof.
  intros H. cbn [Tags provider]. unfold read.
  destruct (pools w !! np) as [p|] eqn:Hp.
  - intros Htag. exact (H np p tag Hp Htag).
  - rewrite lookup_empty. discriminate.
Qed.



Lemma tidy_resizes (np : string) (size : Z) (w : cloud) :
  quiet w /\ well_marked w ->
  exists w', UpdateNodePoolSize np size w = (None, w')
             /\ (quiet w' /\ well_marked w').
Proof.
  intros [Hq Hm]. pose proof Hq as (Hr & _).
  eexists. split; [apply resize_ok; exact Hr|].
  split; [exact Hq | apply well_marked_resize; exact Hm].
Qed.

Lemma tidy_unmarks (np : string) (w : cloud) :
  quiet w /\ well_marked w ->
  exists w', DeleteTags np [EKSNodeGroupPreviousKey] w = (None, w')
             /\ (quiet w' /\ well_marked w').
Proof.
  intros [Hq Hm]. pose proof Hq as (_ & _ & Hu).
  eexists. split; [apply unmark_ok; exact Hu|].
  split; [exact Hq | apply well_marked_unmark; exact Hm].
Qed.

Lemma tidy_Tags (np : string) (w : cloud) (tag : string) :
  quiet w /\ well_marked w ->
  Tags np w !! EKSNodeGroupPreviousKey = Some tag ->
  (2 <= count_sep "/" tag)%nat.
Proof. intros [_ Hm]. apply well_marked_Tags. exact Hm. Qed.

Lemma cloudAB_well_marked : well_marked Scenario.cloudAB.
Proof.
  intros name p tag Hp Htag.
  apply elem_of_map_to_list in Hp.
  set (l := map_to_list (pools Scenario.cloudAB)) in Hp.
  vm_compute in l. subst l.
  repeat (apply elem_of_cons in Hp as [Hp|Hp]);
    [injection Hp as -> ->.. | by apply elem_of_nil in Hp].
  all: apply elem_of_map_to_list in Htag.
  all: match type of Htag with _ ∈ ?m =>
         set (l := m) in Htag; vm_compute in l; subst l end.
  all: repeat (apply elem_of_cons in Htag as [Htag|Htag]);
         try (by apply elem_of_nil in Htag).
  all: try discriminate Htag.
  all: injection Htag as ->; vm_compute; lia.
Qed.

End OnMemCloud.

(** * Further scenarios, run through the theorems *)

Section MoreScenarios.

Import MemCloud Scenario Scenario2 Ledger.

(** [N] has a marker with a negative count and no pool is called
    [missing]: nothing is restored, nothing is called. *)
Lemma ResetNodePoolSizes_nothing_to_restore_witness :
  ResetNodePoolSizes W64 ["N"; "missing"] (start cloudNegative)
  = (Returned None, start cloudNegative).
Proof.
  assert (HN : Tags "N" (world (start cloudNegative))
                 !! EKSNodeGroupPreviousKey = Some "-5/-5/-5")
    by (vm_compute; reflexivity).
  assert (HM : Tags "missing" (world (start cloudNegative))
                 !! EKSNodeGroupPreviousKey = None)
    by (vm_compute; reflexivity).
  apply ResetNodePoolSizes_nothing_to_restore.
  constructor; [|constructor; [|constructor]].
  - unfold nothing_to_restore. rewrite HN.
    exists (-5), (-5), (-5). split; [vm_compute; reflexivity | lia].
  - unfold nothing_to_restore. rewrite HM. exact I.
Defined.

(** [G] is marked ["garbage"]: the batch panics at [G] and [B], which
    has a good marker, is not restored. *)
Lemma ResetNodePoolSizes_panics_on_short_marker_witness :
  ResetNodePoolSizes W64 ["G"; "B"] (start cloudGarbled)
  = (Panicked (IndexOutOfRange 2 1), start cloudGarbled).
Proof.
  assert (Htag : Tags "G" (world (start cloudGarbled))
                   !! EKSNodeGroupPreviousKey = Some "garbage")
    by (vm_compute; reflexivity).
  assert (Hshort : (count_sep "/" "garbage" < 2)%nat) by (vm_compute; lia).
  exact (ResetNodePoolSizes_panics_on_short_marker W64
           [] "G" ["B"] (start cloudGarbled) (start cloudGarbled)
           "garbage" eq_refl Htag Hshort).
Defined.

(** The batch on [A; B] fails at [B]; adding [C] changes nothing. *)
Lemma failed_batch_is_final_witness :
  SetNodePoolSizes (["A"; "B"] ++ ["C"]) 0 (start cloudABC)
  = (Some "resize refused",
     Run cloudABC_A_down
       [CallUpdateNodePoolSize "A" 0;
        CallCreateOrUpdateTags "A" false
          {[ EKSNodeGroupPreviousKey := "1/3/2" ]};
        CallUpdateNodePoolSize "B" 0]).
Proof.
  assert (Hpre : SetNodePoolSizes ["A"; "B"] 0 (start cloudABC)
                 = (Some "resize refused",
                    Run cloudABC_A_down
                      [CallUpdateNodePoolSize "A" 0;
                       CallCreateOrUpdateTags "A" false
                         {[ EKSNodeGroupPreviousKey := "1/3/2" ]};
                       CallUpdateNodePoolSize "B" 0]))
    by (vm_compute; reflexivity).
  exact (proj1 (failed_batch_is_final W64 ["A"; "B"] ["C"] 0
                  (start cloudABC)) _ _ Hpre).
Defined.


(** A quiet store whose markers all have three fields: the restore
    goes through. *)
Lemma ResetNodePoolSizes_succeeds_witness :
  exists st' : run string cloud,
    ResetNodePoolSizes W64 ["A"; "B"] (start cloudAB) = (Returned None, st')
    /\ (quiet (world st') /\ well_marked (world st')).
Proof.
  assert (Hq : quiet (world (start cloudAB)))
    by (repeat split; reflexivity).
  exact (ResetNodePoolSizes_succeeds W64
           (fun w => quiet w /\ well_marked w) ["A"; "B"] (start cloudAB)
           tidy_resizes tidy_unmarks tidy_Tags
           (conj Hq cloudAB_well_marked)).
Defined.

Lemma cloudCalm_pools (np : string) (p : pool) :
  np ∈ ["A"; "B"] -> pools cloudCalm !! np = Some p ->
  restorable p /\ pool_tags p !! EKSNodeGroupPreviousKey = None.
Proof.
  assert (R : forall mn mx c tags,
            in_int32 mn -> in_int32 mx -> 0 <= c < 2 ^ 31 ->
            restorable (Pool mn mx c tags))
    by (intros mn mx c tags Hmn Hmx Hc; unfold restorable;
        cbn [pool_min pool_max pool_count]; auto).
  intros Hnp Hp.
  repeat (apply elem_of_cons in Hnp as [->|Hnp]);
    [| |by apply elem_of_nil in Hnp];
    vm_compute in Hp; injection Hp as <-;
    (split; [apply R; unfold in_int32; lia | vm_compute; reflexivity]).
Qed.

Lemma names_AB_distinct : NoDup ["A"; "B"].
Proof.
  apply NoDup_cons_2; [|apply NoDup_singleton].
  intros H%list_elem_of_singleton. discriminate H.
Qed.

(** Pools [A; B] turned down to zero and restored: the store is the one
    we started from. *)
Lemma turndown_then_restore_is_identity_witness :
  exists st1 st2 : run string cloud,
    SetNodePoolSizes ["A"; "B"] 0 (start cloudCalm) = (None, st1)
    /\ ResetNodePoolSizes W64 ["A"; "B"] st1 = (Returned None, st2)
    /\ world st2 = cloudCalm.
Proof.
  assert (Hq : quiet cloudCalm) by (repeat split; reflexivity).
  pose proof names_AB_distinct as Hnd.
  exact (turndown_then_restore_is_identity W64 cloudCalm ["A"; "B"] 0
           Hq Hnd cloudCalm_pools).
Defined.


End MoreScenarios.
